(** * FairGrade: rubric parsing, criterion grading, form validation and the
      local-storage authentication context

    A shallow embedding of the TypeScript sources

    - the grading library ([parseRubric], [gradeCriterion],
      [processStudentAnswers]), the client of the AI service
      ([fileToBase64], [callAIAPI], [callAIAPIWithFile]) and the OCR
      worker ([initializeOCR], [processImage]),
    - the grading page ([handleSubmit], the handlers of the form and the
      [disabled] property of its buttons),
    - the authentication context ([AuthProvider], [login], [register],
      [logout]),

    together with the parts of the JavaScript platform they run on: strings
    as sequences of UTF-16 code units, the regular expressions the program
    uses (a backtracking matcher over their syntax), IEEE-754 binary64
    numbers (the Standard Library's [SpecFloat]), [localStorage] as a
    finite map.

    What comes from outside is a parameter: the outcome of each call of
    the AI service, the clock, the text of [Math.random().toString(36)],
    [JSON.parse] / [JSON.stringify] (class [Engine]), the environment
    variables, the [FileReader] and [fetch] (record [Platform]), and the
    answers of tesseract.js.  The calls on the toaster and the router, and
    the reads and removals on [localStorage], are taken to return normally;
    a write on [localStorage] throws when the browser refuses it. *)

From Stdlib Require Import String Ascii ZArith NArith Bool Lia.
From Stdlib Require Import Floats.SpecFloat DecimalString DecimalZ.
From stdpp Require Import gmap list.
From Stdlib Require Import List.
Import ListNotations.

(* ===================================================================== *)
(** * Part I: the embedding                                               *)
(* ===================================================================== *)

(* --------------------------------------------------------------------- *)
(** ** JavaScript strings                                                 *)
(* --------------------------------------------------------------------- *)

(** A JavaScript string is a finite sequence of 16-bit code units. *)
Definition char := N.
Definition jsstring := list char.

(** String literals of the source (all of them ASCII). *)
Definition lit (s : string) : jsstring :=
  List.map N_of_ascii (list_ascii_of_string s).
Arguments lit : simpl never.

Definition LF : char := 0x0A%N.
Definition CR : char := 0x0D%N.
Definition PERCENT : char := 0x25%N.
Definition LPAREN : char := 0x28%N.
Definition RPAREN : char := 0x29%N.
Definition DOT : char := 0x2E%N.
Definition SLASH : char := 0x2F%N.

(** ECMAScript LineTerminator: LF, CR, LS, PS. *)
Definition isLineTerminator (c : char) : bool :=
  (c =? 0x0A)%N || (c =? 0x0D)%N || (c =? 0x2028)%N || (c =? 0x2029)%N.

(** The class [\s], which is also what [trim] and [parseInt] strip:
    WhiteSpace (TAB, VT, FF, SP, NBSP, ZWNBSP and the Zs category) together
    with LineTerminator. *)
Definition isWhiteSpace (c : char) : bool :=
  (c =? 0x09)%N || (c =? 0x0B)%N || (c =? 0x0C)%N || (c =? 0x20)%N
  || (c =? 0xA0)%N || (c =? 0x1680)%N
  || ((0x2000 <=? c)%N && (c <=? 0x200A)%N)
  || (c =? 0x202F)%N || (c =? 0x205F)%N || (c =? 0x3000)%N
  || (c =? 0xFEFF)%N
  || isLineTerminator c.

(** The class [\d]. *)
Definition isDigit (c : char) : bool := (0x30 <=? c)%N && (c <=? 0x39)%N.

(** The class [.] (no [s] flag): any code unit but a line terminator. *)
Definition isDot (c : char) : bool := negb (isLineTerminator c).

(** A negated bracket class [[^...]]. *)
Definition noneOf (cs : jsstring) (c : char) : bool :=
  negb (existsb (N.eqb c) cs).

(** The longest prefix whose code units all satisfy [p], and what follows
    it. *)
Fixpoint takeWhile (p : char -> bool) (s : jsstring) : jsstring :=
  match s with
  | c :: s' => if p c then c :: takeWhile p s' else []
  | [] => []
  end.

Fixpoint dropWhile (p : char -> bool) (s : jsstring) : jsstring :=
  match s with
  | c :: s' => if p c then dropWhile p s' else s
  | [] => []
  end.

(** [String.prototype.trim]. *)
Definition trimStart (s : jsstring) : jsstring := dropWhile isWhiteSpace s.

Definition trimEnd (s : jsstring) : jsstring := rev (trimStart (rev s)).

Definition trim (s : jsstring) : jsstring := trimEnd (trimStart s).

(** [String.prototype.split] with a separator of one code unit: the pieces
    between the occurrences of the separator, empty pieces included. *)
Fixpoint String_split (sep : char) (s : jsstring) : list jsstring :=
  match s with
  | [] => [[]]
  | c :: s' =>
      if (c =? sep)%N then [] :: String_split sep s'
      else match String_split sep s' with
           | piece :: pieces => (c :: piece) :: pieces
           | [] => [[c]]
           end
  end.

(** [String.prototype.substr(start, length)] for non-negative arguments. *)
Definition substr (s : jsstring) (start len : nat) : jsstring :=
  take len (drop start s).

(* --------------------------------------------------------------------- *)
(** ** Regular expressions                                                *)
(* --------------------------------------------------------------------- *)

(** The pattern language of the three regular expressions of the program:
    pattern characters, character classes, greedy and lazy quantifiers over
    a one-character atom, numbered capture groups, and the end-of-input
    assertion. *)
Inductive regex : Type :=
| Eps
| Lit (c : char)
| Class (p : char -> bool)
| Quant (greedy : bool) (min : nat) (p : char -> bool)
| Cat (r1 r2 : regex)
| Group (n : nat) (r : regex)
| EndOfInput.

Record RegExp := { source : regex; ignoreCase : bool }.

(** Canonicalize (non-unicode mode) as far as it can relate a code unit to
    an ASCII pattern character: a code unit above 127 never canonicalises
    to one below 128, so only ASCII case folding is observable for the
    ASCII literals of the program's patterns. *)
Definition canonicalize (c : char) : char :=
  if ((0x61 <=? c)%N && (c <=? 0x7A)%N)%bool then (c - 0x20)%N else c.

Definition sameChar (i : bool) (c x : char) : bool :=
  if i then (canonicalize c =? canonicalize x)%N else (c =? x)%N.

(** Captures: group number and captured text, most recent first. *)
Definition captures := list (nat * jsstring).

(** The part of [s] that was consumed to leave [rest]. *)
Definition consumed (s rest : jsstring) : jsstring :=
  take (length s - length rest) s.

Section Matcher.
Context {A : Type}.

(** [x*], [x+] : as many as possible first, giving back one at a time. *)
Fixpoint quantGreedy (p : char -> bool) (min : nat) (s : jsstring)
         (k : jsstring -> option A) {struct s} : option A :=
  match s with
  | c :: s' =>
      if p c then
        match quantGreedy p (Nat.pred min) s' k with
        | Some r => Some r
        | None => match min with O => k s | S _ => None end
        end
      else match min with O => k s | S _ => None end
  | [] => match min with O => k s | S _ => None end
  end.

(** [x*?], [x+?] : as few as possible first, taking one more at a time. *)
Fixpoint quantLazy (p : char -> bool) (min : nat) (s : jsstring)
         (k : jsstring -> option A) {struct s} : option A :=
  match min with
  | O =>
      match k s with
      | Some r => Some r
      | None =>
          match s with
          | c :: s' => if p c then quantLazy p O s' k else None
          | [] => None
          end
      end
  | S min' =>
      match s with
      | c :: s' => if p c then quantLazy p min' s' k else None
      | [] => None
      end
  end.

(** The backtracking matcher, in continuation-passing style: [k] is the
    rest of the pattern, tried on the rest of the input. *)
Fixpoint matcher (i : bool) (r : regex) (s : jsstring) (cs : captures)
         (k : jsstring -> captures -> option A) {struct r} : option A :=
  match r with
  | Eps => k s cs
  | Lit c =>
      match s with
      | x :: s' => if sameChar i c x then k s' cs else None
      | [] => None
      end
  | Class p =>
      match s with
      | x :: s' => if p x then k s' cs else None
      | [] => None
      end
  | Quant true min p => quantGreedy p min s (fun s' => k s' cs)
  | Quant false min p => quantLazy p min s (fun s' => k s' cs)
  | Cat r1 r2 => matcher i r1 s cs (fun s' cs' => matcher i r2 s' cs' k)
  | Group n r1 =>
      matcher i r1 s cs (fun s' cs' => k s' ((n, consumed s s') :: cs'))
  | EndOfInput => match s with [] => k s cs | _ :: _ => None end
  end.
End Matcher.

(** The result array of [RegExp.prototype.exec]. *)
Record MatchResult := {
  index : nat;
  whole : jsstring;
  groups : captures
}.

(** [m[n]] for a match result [m].  Every group of the program's patterns
    stands outside any quantifier, so it takes part in every match. *)
Definition group (m : MatchResult) (n : nat) : jsstring :=
  match List.find (fun '(k, _) => Nat.eqb k n) (groups m) with
  | Some (_, text) => text
  | None => []
  end.

(** Try the pattern at each position, leftmost first. *)
Fixpoint execFrom (re : RegExp) (i : nat) (s : jsstring) : option MatchResult :=
  match matcher (ignoreCase re) (source re) s [] (fun s' cs => Some (s', cs)) with
  | Some (s', cs) =>
      Some {| index := i; whole := consumed s s'; groups := cs |}
  | None =>
      match s with
      | [] => None
      | _ :: s' => execFrom re (S i) s'
      end
  end.

(** [String.prototype.match] with a regular expression without [g] flag. *)
Definition String_match (s : jsstring) (re : RegExp) : option MatchResult :=
  execFrom re 0 s.

(** [String.prototype.replace] with a regular expression without [g] flag
    and a replacement text without [$] patterns. *)
Definition String_replace (s : jsstring) (re : RegExp) (by_ : jsstring) : jsstring :=
  match String_match s re with
  | Some m => take (index m) s ++ by_ ++ drop (index m + length (whole m)) s
  | None => s
  end.

Fixpoint litSeq (cs : jsstring) : regex :=
  match cs with
  | [] => Eps
  | c :: cs' => Cat (Lit c) (litSeq cs')
  end.

(* --------------------------------------------------------------------- *)
(** ** Numbers                                                            *)
(* --------------------------------------------------------------------- *)

(** A JavaScript Number is an IEEE-754 binary64 value. *)
Definition number := spec_float.

Definition prec64 : Z := 53.
Definition emax64 : Z := 1024.

Definition NaN : number := S754_nan.

(** The Number nearest to an integer (ties to even). *)
Definition number_of_Z (z : Z) : number := binary_normalize prec64 emax64 z 0 false.

Definition num_add (x y : number) : number := SFadd prec64 emax64 x y.
Definition num_mul (x y : number) : number := SFmul prec64 emax64 x y.
Definition num_div (x y : number) : number := SFdiv prec64 emax64 x y.

(** [x < y], [x > y], [x >= y]: false as soon as an operand is NaN. *)
Definition num_lt (x y : number) : bool := SFltb x y.
Definition num_gt (x y : number) : bool := SFltb y x.
Definition num_ge (x y : number) : bool := SFleb y x.

Definition isNaN (x : number) : bool :=
  match x with S754_nan => true | _ => false end.

(** The literal [0.7]: the binary64 value nearest to 7/10. *)
Definition lit_0_7 : number := S754_finite false 6305039478318694 (-53).

(** [Math.floor]. *)
Definition Math_floor (x : number) : number :=
  match x with
  | S754_finite s m e =>
      if (0 <=? e)%Z then x
      else number_of_Z (Z.shiftr (cond_Zopp s (Zpos m)) (- e))
  | _ => x
  end.

(** [Math.round]: the nearest integer, a tie going towards +infinity; the
    results in [[-0.5, 0)] are the negative zero. *)
Definition Math_round (x : number) : number :=
  match x with
  | S754_finite s m e =>
      if (0 <=? e)%Z then x
      else
        let n := Z.shiftr (2 * cond_Zopp s (Zpos m) + Z.shiftl 1 (- e)) (- e + 1) in
        binary_normalize prec64 emax64 n 0 s
  | _ => x
  end.

(** The value of a sequence of decimal digits. *)
Definition digitValue (c : char) : Z := Z.of_N c - 0x30.

Definition decimalValue (ds : jsstring) : Z :=
  fold_left (fun acc c => 10 * acc + digitValue c)%Z ds 0%Z.

Definition digitsPrefix (s : jsstring) : jsstring := takeWhile isDigit s.

(** [parseInt(s, 10)]: leading white space is skipped, then an optional
    sign, then the longest run of decimal digits; NaN when there is none.
    The result is the Number nearest to the integer read (engines may
    approximate beyond the 20th significant digit; the nearest Number is
    what they give up to there), with the sign kept on zero. *)
Definition parseInt10 (s : jsstring) : number :=
  let s1 := trimStart s in
  let '(neg, s2) :=
    match s1 with
    | c :: t =>
        if (c =? 0x2D)%N then (true, t)
        else if (c =? 0x2B)%N then (false, t)
        else (false, s1)
    | [] => (false, s1)
    end in
  match digitsPrefix s2 with
  | [] => NaN
  | ds => binary_normalize prec64 emax64 (cond_Zopp neg (decimalValue ds)) 0 neg
  end.

(** The decimal text of an integer-valued Number such as a time value. *)
Definition decimal (z : Z) : jsstring := lit (NilZero.string_of_int (Z.to_int z)).

(* --------------------------------------------------------------------- *)
(** ** The grading library                                                *)
(* --------------------------------------------------------------------- *)

Record Criterion := { criterion_name : jsstring; weight : number }.

(** [/(.*?)\s*\((\d+)%\)/] *)
Definition RUBRIC_LINE : RegExp :=
  {| source :=
       Cat (Group 1 (Quant false 0 isDot))
      (Cat (Quant true 0 isWhiteSpace)
      (Cat (Lit LPAREN)
      (Cat (Group 2 (Quant true 1 isDigit))
      (Cat (Lit PERCENT)
           (Lit RPAREN)))));
     ignoreCase := false |}.

Definition parseRubricLine (line : jsstring) : option Criterion :=
  match String_match line RUBRIC_LINE with
  | Some m => Some {| criterion_name := trim (group m 1); weight := parseInt10 (group m 2) |}
  | None => None
  end.

(** The [filter] that keeps the non-null items. *)
Definition nonNull {A} (l : list (option A)) : list A := omap id l.

Definition parseRubric (rubricText : jsstring) : list Criterion :=
  nonNull (List.map parseRubricLine (String_split LF rubricText)).

(** What a rejected promise or a [throw] carries: an Error object of some
    class with its message, or an object that has no [message] property
    (the event a failing [FileReader] rejects with). *)
Inductive errorClass := PlainError | TypeError | SyntaxError | OtherError.

Inductive thrown :=
| ErrorObject (cls : errorClass) (message : jsstring)
| EventObject.

(** [`${error.message}`] *)
Definition messageText (error : thrown) : jsstring :=
  match error with
  | ErrorObject _ message => message
  | EventObject => lit "undefined"
  end.

Inductive outcome (A : Type) :=
| Resolved (value : A)
| Rejected (error : thrown).
Arguments Resolved {A} value.
Arguments Rejected {A} error.

Record File := { file_name : jsstring; file_type : jsstring }.

(** The prompt is a fixed template; these are the values that fill it. *)
Record Prompt := {
  prompt_subject : jsstring;
  prompt_criterion : jsstring;
  prompt_maxScore : number
}.

(** [callAIAPIWithFile] as one call site sees it: reading the file, the
    request and the decoding of the reply all belong to the environment.
    The last argument numbers the successive calls made from that site. *)
Definition AIService := File -> Prompt -> nat -> outcome jsstring.

(** [/SCORE:\s*(\d+)/i] *)
Definition SCORE_LINE : RegExp :=
  {| source :=
       Cat (litSeq (lit "SCORE:"))
      (Cat (Quant true 0 isWhiteSpace)
           (Group 1 (Quant true 1 isDigit)));
     ignoreCase := true |}.

Record Graded := { graded_score : number; graded_feedback : jsstring }.

Definition zero : number := S754_zero false.

Definition gradeCriterion (callAIAPIWithFile : AIService)
    (answer : File) (criterionName : jsstring) (maxScore : number)
    (subject : jsstring) : Graded :=
  let attempt : outcome Graded :=
    let prompt := {| prompt_subject := subject;
                     prompt_criterion := criterionName;
                     prompt_maxScore := maxScore |} in
    match callAIAPIWithFile answer prompt 0 with
    | Rejected error => Rejected error
    | Resolved response =>
        match String_match response SCORE_LINE with
        | None =>
            Rejected (ErrorObject PlainError
                        (lit "AI response did not contain a valid score"))
        | Some scoreMatch =>
            let score := parseInt10 (group scoreMatch 1) in
            if isNaN score || num_lt score zero || num_gt score maxScore
            then Rejected (ErrorObject PlainError
                             (lit "AI response contained an invalid score"))
            else Resolved {| graded_score := score;
                             graded_feedback := response |}
        end
    end in
  match attempt with
  | Resolved graded => graded
  | Rejected error =>
      {| graded_score := Math_floor (num_mul maxScore lit_0_7);
         graded_feedback :=
           lit "Unable to perform AI grading: " ++ messageText error
           ++ lit ". Please review manually." |}
  end.

Record CriterionResult := {
  cr_name : jsstring;
  cr_score : number;
  cr_maxScore : number;
  cr_feedback : jsstring
}.

Record GradingResult := {
  id : jsstring;
  name : jsstring;
  score : number;
  feedback : jsstring;
  criteria : list CriterionResult
}.

(** What the run of [processStudentAnswers] takes from outside: the AI
    service behind the call for file [i] and criterion [j], the clock read
    and the text of [Math.random().toString(36)] when file [i] is pushed. *)
Record Env := {
  api : nat -> nat -> AIService;
  now : nat -> Z;
  random36 : nat -> jsstring
}.

(** [/\.[^/.]+$/] *)
Definition FILE_EXTENSION : RegExp :=
  {| source :=
       Cat (Lit DOT)
      (Cat (Quant true 1 (noneOf [SLASH; DOT]))
           EndOfInput);
     ignoreCase := false |}.

Definition sumOf (f : CriterionResult -> number) (l : list CriterionResult) : number :=
  fold_left (fun sum criterion => num_add sum (f criterion)) l zero.

Definition totalOf (criteriaResults : list CriterionResult) : number :=
  Math_round
    (num_mul (num_div (sumOf cr_score criteriaResults)
                      (sumOf cr_maxScore criteriaResults))
             (number_of_Z 100)).

Definition overallFeedbackOf (totalScore : number) : jsstring :=
  if num_ge totalScore (number_of_Z 80) then lit "Excellent work overall!"
  else if num_ge totalScore (number_of_Z 60) then lit "Good work with room for improvement."
  else if num_ge totalScore (number_of_Z 40) then lit "Needs significant improvement."
  else lit "Requires extensive revision.".

(** [`student-${Date.now()}-${Math.random().toString(36).substr(2, 9)}`] *)
Definition studentId (clock : Z) (random : jsstring) : jsstring :=
  lit "student-" ++ decimal clock ++ lit "-" ++ substr random 2 9.

(** The body of the loop over the files, for the file at position [i]. *)
Definition gradeFile (env : Env) (criteria : list Criterion) (i : nat)
    (file : File) : GradingResult :=
  let criteriaResults :=
    imap (fun j criterion =>
            let maxScore := weight criterion in
            let graded :=
              gradeCriterion (api env i j) file (criterion_name criterion)
                             maxScore [] in
            {| cr_name := criterion_name criterion;
               cr_score := graded_score graded;
               cr_maxScore := maxScore;
               cr_feedback := graded_feedback graded |})
         criteria in
  let totalScore := totalOf criteriaResults in
  let overallFeedback := overallFeedbackOf totalScore in
  {| id := studentId (now env i) (random36 env i);
     name := String_replace (file_name file) FILE_EXTENSION [];
     score := totalScore;
     feedback := overallFeedback;
     criteria := criteriaResults |}.

(** [for (const file of studentFiles) { ...; results.push(...) }] *)
Definition processStudentAnswers (env : Env) (studentFiles : list File)
    (rubricText : jsstring) : list GradingResult :=
  let criteria := parseRubric rubricText in
  fold_left
    (fun results file =>
       results ++ [gradeFile env criteria (length results) file])
    studentFiles [].

(* --------------------------------------------------------------------- *)
(** ** Effects: a world, and an outcome                                   *)
(* --------------------------------------------------------------------- *)

(** An asynchronous function of a component runs over a world [W] (the
    component state, the browser objects it reaches, the calls it has made)
    and either returns or throws. *)
Definition M (W A : Type) : Type := W -> W * outcome A.

Definition ret {W A} (a : A) : M W A := fun w => (w, Resolved a).

Definition throw {W A} (error : thrown) : M W A := fun w => (w, Rejected error).

Definition bind {W A B} (m : M W A) (f : A -> M W B) : M W B :=
  fun w =>
    match m w with
    | (w', Resolved a) => f a w'
    | (w', Rejected error) => (w', Rejected error)
    end.

(** A step of the engine that changes no state: it returns or throws. *)
Definition lift {W A} (r : outcome A) : M W A := fun w => (w, r).

Declare Scope js_scope.
Delimit Scope js_scope with js.
Notation "x ← y ; z" := (bind y (fun x => z))
  (at level 20, y at level 100, z at level 200, only parsing) : js_scope.
Notation "x ;; z" := (bind x (fun _ => z))
  (at level 100, z at level 200, only parsing, right associativity) : js_scope.
Local Open Scope js_scope.

(** [try { body } catch (error) { handler } finally { finalizer }] *)
Definition tryCatchFinally {W A} (body : M W A) (handler : thrown -> M W A)
    (finalizer : M W unit) : M W A :=
  fun w =>
    let '(w1, r1) := body w in
    let '(w2, r2) :=
      match r1 with
      | Rejected error => handler error w1
      | Resolved _ => (w1, r1)
      end in
    match finalizer w2 with
    | (w3, Resolved _) => (w3, r2)
    | (w3, Rejected error) => (w3, Rejected error)
    end.

(* --------------------------------------------------------------------- *)
(** ** The grading page                                                   *)
(* --------------------------------------------------------------------- *)

Inductive ToastVariant := DefaultVariant | Destructive.

Record Toast := {
  title : jsstring;
  description : jsstring;
  variant : ToastVariant
}.

(** What the handler calls, in order: the event, the toaster, the state
    setter, the timer, the router. *)
Inductive PageCall :=
| PreventDefault
| ShowToast (t : Toast)
| SetIsSubmitting (b : bool)
| Sleep (ms : nat)
| RouterPush (url : jsstring).

Record Page := {
  subject : option jsstring;
  studentFiles : list File;
  rubricFile : option File;
  useTemplateRubric : bool;
  isSubmitting : bool;
  calls : list PageCall
}.

Definition call (c : PageCall) : M Page unit :=
  fun p =>
    ({| subject := subject p; studentFiles := studentFiles p;
        rubricFile := rubricFile p; useTemplateRubric := useTemplateRubric p;
        isSubmitting := isSubmitting p; calls := calls p ++ [c] |},
     Resolved tt).

Definition toast (t : Toast) : M Page unit := call (ShowToast t).

Definition setIsSubmitting (b : bool) : M Page unit :=
  fun p =>
    ({| subject := subject p; studentFiles := studentFiles p;
        rubricFile := rubricFile p; useTemplateRubric := useTemplateRubric p;
        isSubmitting := b; calls := calls p ++ [SetIsSubmitting b] |},
     Resolved tt).

(** [!subject] for [subject : string | null]: null and the empty string. *)
Definition noSubject (s : option jsstring) : bool :=
  match s with
  | None => true
  | Some [] => true
  | Some (_ :: _) => false
  end.

Definition isNull {A} (o : option A) : bool :=
  match o with None => true | Some _ => false end.

(** [handleSubmit]; [clock] is what [Date.now()] gives when the route is
    built. *)
Definition handleSubmit (clock : Z) : M Page unit :=
  fun p =>
  (call PreventDefault ;;
   if noSubject (subject p) then
     toast {| title := lit "Subject required";
              description := lit "Please select a subject for grading";
              variant := Destructive |}
   else if (length (studentFiles p) =? 0)%nat then
     toast {| title := lit "Student files required";
              description := lit "Please upload at least one student answer file";
              variant := Destructive |}
   else if isNull (rubricFile p) && negb (useTemplateRubric p) then
     toast {| title := lit "Rubric required";
              description := lit "Please either upload a rubric or use a template";
              variant := Destructive |}
   else
     setIsSubmitting true ;;
     tryCatchFinally
       (call (Sleep 2000) ;;
        toast {| title := lit "Grading started";
                 description := lit "Your files have been uploaded and grading has begun";
                 variant := DefaultVariant |} ;;
        call (RouterPush (lit "/grading/results/session-" ++ decimal clock)))
       (fun error =>
          toast {| title := lit "Error";
                   description := lit "There was an error starting the grading process";
                   variant := Destructive |})
       (setIsSubmitting false)) p.

(* --------------------------------------------------------------------- *)
(** ** The authentication context                                         *)
(* --------------------------------------------------------------------- *)

(** The values [JSON.parse] produces and [JSON.stringify] prints.  The
    fields of an object are in insertion order. *)
#[local] Unset Elimination Schemes.
Inductive jsval :=
| JNull
| JBool (b : bool)
| JNum (n : number)
| JStr (s : jsstring)
| JArr (items : list jsval)
| JObj (fields : list (jsstring * jsval)).
#[local] Set Elimination Schemes.

(** What raises a TypeError in these sources: the read of a property of
    null, and the call of what is not a function. *)
Inductive TypeErrorKind :=
| PropertyOfNull (key : jsstring)
| NotAFunction (callee : jsstring).

(** The engine and the browser: [JSON.parse] (which throws on a text that
    is not JSON), [JSON.stringify], the TypeError raised on a property
    access on null or on a call of what is not a function, and the error
    [localStorage.setItem] throws when the browser refuses to store a
    value under a key next to what the storage holds (a
    QuotaExceededError; [None] when it accepts). *)
Class Engine := {
  JSON_parse : jsstring -> outcome jsval;
  JSON_stringify : jsval -> jsstring;
  typeError : TypeErrorKind -> thrown;
  quotaExceeded : gmap jsstring jsstring -> jsstring -> jsstring -> option thrown
}.

Definition USERS_STORAGE_KEY : jsstring := lit "fairgrade_users".
Definition CURRENT_USER_KEY : jsstring := lit "current_user".

Inductive StorageCall :=
| GetItem (key : jsstring)
| SetItem (key value : jsstring)
| RemoveItem (key : jsstring).

Definition keyOf (c : StorageCall) : jsstring :=
  match c with
  | GetItem key => key
  | SetItem key _ => key
  | RemoveItem key => key
  end.

(** The state of the provider ([user], [loading]), the browser's
    [localStorage], and the calls made on it so far. *)
Record Auth := {
  user : jsval;
  loading : bool;
  localStorage : gmap jsstring jsstring;
  storageCalls : list StorageCall
}.

Definition setUser (u : jsval) : M Auth unit :=
  fun a =>
    ({| user := u; loading := loading a; localStorage := localStorage a;
        storageCalls := storageCalls a |}, Resolved tt).

Definition setLoading (b : bool) : M Auth unit :=
  fun a =>
    ({| user := user a; loading := b; localStorage := localStorage a;
        storageCalls := storageCalls a |}, Resolved tt).

Definition localStorage_getItem (key : jsstring) : M Auth (option jsstring) :=
  fun a =>
    ({| user := user a; loading := loading a; localStorage := localStorage a;
        storageCalls := storageCalls a ++ [GetItem key] |},
     Resolved (localStorage a !! key)).

(** A write that the browser refuses throws and stores nothing. *)
Definition localStorage_setItem `{Engine} (key value : jsstring) : M Auth unit :=
  fun a =>
    match quotaExceeded (localStorage a) key value with
    | Some error =>
        ({| user := user a; loading := loading a;
            localStorage := localStorage a;
            storageCalls := storageCalls a ++ [SetItem key value] |},
         Rejected error)
    | None =>
        ({| user := user a; loading := loading a;
            localStorage := <[key := value]> (localStorage a);
            storageCalls := storageCalls a ++ [SetItem key value] |},
         Resolved tt)
    end.

Definition localStorage_removeItem (key : jsstring) : M Auth unit :=
  fun a =>
    ({| user := user a; loading := loading a;
        localStorage := delete key (localStorage a);
        storageCalls := storageCalls a ++ [RemoveItem key] |},
     Resolved tt).

(** [o.key] with [undefined] as [None]; it throws on null. *)
Definition lookupField (key : jsstring) (fields : list (jsstring * jsval)) : option jsval :=
  match List.find (fun '(k, _) => bool_decide (k = key)) fields with
  | Some (_, v) => Some v
  | None => None
  end.

Definition getProp `{Engine} {W} (o : jsval) (key : jsstring) : M W (option jsval) :=
  match o with
  | JNull => throw (typeError (PropertyOfNull key))
  | JObj fields => ret (lookupField key fields)
  | _ => ret None
  end.

(** [x === s] for a property value [x] and a string [s]. *)
Definition strictEqString (x : option jsval) (s : jsstring) : bool :=
  match x with
  | Some (JStr t) => bool_decide (t = s)
  | _ => false
  end.

(** [Array.prototype.some] over the items of an array. *)
Fixpoint some {W} (f : jsval -> M W bool) (items : list jsval) : M W bool :=
  match items with
  | [] => ret false
  | u :: rest => b ← f u; if b : bool then ret true else some f rest
  end.

(** [const { password: _, ...userData } = newUser] *)
Definition withoutField (key : jsstring) (fields : list (jsstring * jsval)) :
    list (jsstring * jsval) :=
  List.filter (fun '(k, _) => negb (bool_decide (k = key))) fields.

(** [u => u.email === email] *)
Definition hasEmail `{Engine} {W} (email : jsstring) (u : jsval) : M W bool :=
  e ← getProp u (lit "email"); ret (strictEqString e email).

Section AuthProvider.
Context `{Engine}.

(** The effect run when the provider mounts.  What [getItem] returns is
    falsy when it is null or the empty string. *)
Definition AuthProvider_useEffect : M Auth unit :=
  storedUser ← localStorage_getItem CURRENT_USER_KEY;
  match storedUser with
  | Some ((_ :: _) as text) => parsed ← lift (JSON_parse text); setUser parsed
  | _ => ret tt
  end ;;
  setLoading false.

Definition getStoredUsers : M Auth jsval :=
  users ← localStorage_getItem USERS_STORAGE_KEY;
  match users with
  | Some ((_ :: _) as text) => lift (JSON_parse text)
  | _ => ret (JArr [])
  end.

Definition saveUsers (users : jsval) : M Auth unit :=
  localStorage_setItem USERS_STORAGE_KEY (JSON_stringify users).

Definition login (email password : jsstring) : M Auth unit :=
  setLoading true ;;
  tryCatchFinally
    (setUser (JObj [(lit "email", JStr email)]))
    (fun error => throw error)
    (setLoading false).

(** [random] is the text of [Math.random().toString(36)]. *)
Definition register (random : jsstring) (name email password : jsstring) :
    M Auth unit :=
  setLoading true ;;
  tryCatchFinally
    (users ← getStoredUsers;
     match users with
     | JArr items =>
         taken ← some (hasEmail email) items;
         if taken : bool then
           throw (ErrorObject PlainError (lit "Email already registered"))
         else
           let newUser :=
             [(lit "id", JStr (lit "user-" ++ substr random 2 9));
              (lit "name", JStr name);
              (lit "email", JStr email);
              (lit "password", JStr password)] in
           saveUsers (JArr (items ++ [JObj newUser])) ;;
           let userData := JObj (withoutField (lit "password") newUser) in
           setUser userData ;;
           localStorage_setItem CURRENT_USER_KEY (JSON_stringify userData)
     | JNull => throw (typeError (PropertyOfNull (lit "some")))
     | _ => throw (typeError (NotAFunction (lit "users.some")))
     end)
    (fun error => throw error)
    (setLoading false).

Definition logout : M Auth unit :=
  setLoading true ;;
  tryCatchFinally
    (setUser JNull ;;
     localStorage_removeItem CURRENT_USER_KEY)
    (fun error => throw error)
    (setLoading false).
End AuthProvider.

(* --------------------------------------------------------------------- *)
(** ** A small engine                                                     *)
(* --------------------------------------------------------------------- *)

(** An instance of [Engine] to run the provider on: JSON texts made of
    strings, arrays, objects, [true], [false] and [null].  Number literals
    are outside its range (it rejects them, and no number reaches its
    printer from the texts it reads or from the provider).  Its storage
    accepts every write. *)

Definition hexDigit (n : N) : char :=
  if (n <? 10)%N then (0x30 + n)%N else (0x61 + (n - 10))%N.

Definition hex4 (c : char) : jsstring :=
  [hexDigit (c / 4096 mod 16); hexDigit (c / 256 mod 16);
   hexDigit (c / 16 mod 16); hexDigit (c mod 16)]%N.

Definition quoteChar (c : char) : jsstring :=
  if (c =? 0x22)%N then [0x5C; 0x22]%N
  else if (c =? 0x5C)%N then lit "\\"
  else if (c =? 0x08)%N then lit "\b"
  else if (c =? 0x0C)%N then lit "\f"
  else if (c =? 0x0A)%N then lit "\n"
  else if (c =? 0x0D)%N then lit "\r"
  else if (c =? 0x09)%N then lit "\t"
  else if (c <? 0x20)%N then lit "\u" ++ hex4 c
  else [c].

Definition quote (s : jsstring) : jsstring :=
  [0x22%N] ++ List.concat (List.map quoteChar s) ++ [0x22%N].

Fixpoint mini_stringify (v : jsval) : jsstring :=
  match v with
  | JNull => lit "null"
  | JBool true => lit "true"
  | JBool false => lit "false"
  | JNum _ => lit "null"
  | JStr s => quote s
  | JArr items =>
      lit "["
      ++ (fix commas (l : list jsval) : jsstring :=
            match l with
            | [] => []
            | [x] => mini_stringify x
            | x :: rest => mini_stringify x ++ lit "," ++ commas rest
            end) items
      ++ lit "]"
  | JObj fields =>
      lit "{"
      ++ (fix commas (l : list (jsstring * jsval)) : jsstring :=
            match l with
            | [] => []
            | [(k, x)] => quote k ++ lit ":" ++ mini_stringify x
            | (k, x) :: rest =>
                quote k ++ lit ":" ++ mini_stringify x ++ lit "," ++ commas rest
            end) fields
      ++ lit "}"
  end.

Definition isJsonSpace (c : char) : bool :=
  (c =? 0x20)%N || (c =? 0x09)%N || (c =? 0x0A)%N || (c =? 0x0D)%N.

Definition hexValue (c : char) : option N :=
  if isDigit c then Some (c - 0x30)%N
  else if ((0x61 <=? c) && (c <=? 0x66))%N then Some (c - 0x61 + 10)%N
  else if ((0x41 <=? c) && (c <=? 0x46))%N then Some (c - 0x41 + 10)%N
  else None.

(** The characters of a string literal, after its opening quote. *)
Fixpoint readString (s acc : jsstring) {struct s} : option (jsstring * jsstring) :=
  match s with
  | [] => None
  | c :: rest =>
      if (c =? 0x22)%N then Some (rev acc, rest)
      else if (c =? 0x5C)%N then
        match rest with
        | [] => None
        | e :: rest' =>
            if (e =? 0x75)%N then
              match rest' with
              | h1 :: h2 :: h3 :: h4 :: rest'' =>
                  match hexValue h1, hexValue h2, hexValue h3, hexValue h4 with
                  | Some a, Some b, Some c', Some d =>
                      readString rest'' ((a * 4096 + b * 256 + c' * 16 + d)%N :: acc)
                  | _, _, _, _ => None
                  end
              | _ => None
              end
            else
              let plain (x : char) := readString rest' (x :: acc) in
              if (e =? 0x22)%N then plain 0x22%N
              else if (e =? 0x5C)%N then plain 0x5C%N
              else if (e =? 0x2F)%N then plain 0x2F%N
              else if (e =? 0x62)%N then plain 0x08%N
              else if (e =? 0x66)%N then plain 0x0C%N
              else if (e =? 0x6E)%N then plain 0x0A%N
              else if (e =? 0x72)%N then plain 0x0D%N
              else if (e =? 0x74)%N then plain 0x09%N
              else None
        end
      else if (c <? 0x20)%N then None
      else readString rest (c :: acc)
  end.

(** A later duplicate of a key replaces the value at the key's place. *)
Fixpoint setField (k : jsstring) (v : jsval) (fields : list (jsstring * jsval)) :
    list (jsstring * jsval) :=
  match fields with
  | [] => [(k, v)]
  | (k', v') :: rest =>
      if bool_decide (k' = k) then (k, v) :: rest else (k', v') :: setField k v rest
  end.

Definition stripPrefix (p s : jsstring) : option jsstring :=
  if bool_decide (take (length p) s = p) then Some (drop (length p) s) else None.

Fixpoint readValue (fuel : nat) (s : jsstring) {struct fuel} : option (jsval * jsstring) :=
  match fuel with
  | O => None
  | S fuel' =>
      match dropWhile isJsonSpace s with
      | [] => None
      | c :: rest =>
          if (c =? 0x22)%N then
            match readString rest [] with
            | Some (text, rest') => Some (JStr text, rest')
            | None => None
            end
          else if (c =? 0x5B)%N then
            match dropWhile isJsonSpace rest with
            | c' :: rest' =>
                if (c' =? 0x5D)%N then Some (JArr [], rest')
                else readItems fuel' rest []
            | [] => None
            end
          else if (c =? 0x7B)%N then
            match dropWhile isJsonSpace rest with
            | c' :: rest' =>
                if (c' =? 0x7D)%N then Some (JObj [], rest')
                else readFields fuel' rest []
            | [] => None
            end
          else
            match stripPrefix (lit "null") (c :: rest),
                  stripPrefix (lit "true") (c :: rest),
                  stripPrefix (lit "false") (c :: rest) with
            | Some r, _, _ => Some (JNull, r)
            | _, Some r, _ => Some (JBool true, r)
            | _, _, Some r => Some (JBool false, r)
            | _, _, _ => None
            end
      end
  end
with readItems (fuel : nat) (s : jsstring) (acc : list jsval) {struct fuel} :
    option (jsval * jsstring) :=
  match fuel with
  | O => None
  | S fuel' =>
      match readValue fuel' s with
      | Some (v, rest) =>
          match dropWhile isJsonSpace rest with
          | c :: rest' =>
              if (c =? 0x2C)%N then readItems fuel' rest' (acc ++ [v])
              else if (c =? 0x5D)%N then Some (JArr (acc ++ [v]), rest')
              else None
          | [] => None
          end
      | None => None
      end
  end
with readFields (fuel : nat) (s : jsstring) (acc : list (jsstring * jsval))
    {struct fuel} : option (jsval * jsstring) :=
  match fuel with
  | O => None
  | S fuel' =>
      match dropWhile isJsonSpace s with
      | c :: rest =>
          if (c =? 0x22)%N then
            match readString rest [] with
            | Some (k, rest1) =>
                match dropWhile isJsonSpace rest1 with
                | c1 :: rest2 =>
                    if (c1 =? 0x3A)%N then
                      match readValue fuel' rest2 with
                      | Some (v, rest3) =>
                          match dropWhile isJsonSpace rest3 with
                          | c3 :: rest4 =>
                              if (c3 =? 0x2C)%N then readFields fuel' rest4 (setField k v acc)
                              else if (c3 =? 0x7D)%N then Some (JObj (setField k v acc), rest4)
                              else None
                          | [] => None
                          end
                      | None => None
                      end
                    else None
                | [] => None
                end
            | None => None
            end
          else None
      | [] => None
      end
  end.

Definition mini_parse (text : jsstring) : outcome jsval :=
  match readValue (2 * length text + 2) text with
  | Some (v, rest) =>
      match dropWhile isJsonSpace rest with
      | [] => Resolved v
      | _ :: _ => Rejected (ErrorObject SyntaxError (lit "Unexpected token in JSON"))
      end
  | None => Rejected (ErrorObject SyntaxError (lit "Unexpected token in JSON"))
  end.

Definition miniEngine : Engine :=
  {| JSON_parse := mini_parse;
     JSON_stringify := mini_stringify;
     typeError := fun kind =>
       ErrorObject TypeError
         match kind with
         | PropertyOfNull key =>
             lit "Cannot read properties of null (reading '" ++ key ++ lit "')"
         | NotAFunction callee => callee ++ lit " is not a function"
         end;
     quotaExceeded := fun _ _ _ => None |}.

(* --------------------------------------------------------------------- *)
(** ** The client of the AI service                                       *)
(* --------------------------------------------------------------------- *)

Definition COMMA : char := 0x2C%N.

(** The literals [0.3] and [0.8] of the request bodies. *)
Definition lit_0_3 : number := S754_finite false 5404319552844595 (-54).
Definition lit_0_8 : number := S754_finite false 7205759403792794 (-53).

Record Request := {
  req_url : jsstring;
  req_method : jsstring;
  req_headers : list (jsstring * jsstring);
  req_body : jsstring
}.

(** What the client reads of a response: [ok], [statusText], and what
    [json()] resolves to or rejects with. *)
Record Response := {
  res_ok : bool;
  res_statusText : jsstring;
  res_json : outcome jsval
}.

(** What the client takes from outside: the two environment variables
    ([None] for [undefined]), the [FileReader] (the data URL it loads, or
    [None] when it fires [error]) and [fetch]. *)
Record Platform := {
  NEXT_PUBLIC_AI_API_KEY : option jsstring;
  NEXT_PUBLIC_AI_API_URL : option jsstring;
  fileReader : File -> option jsstring;
  fetch : Request -> outcome Response
}.

(** The calls the client makes, in order. *)
Inductive NetCall :=
| ReadAsDataURL (file : File)
| Fetch (request : Request)
| ResponseJson.

Record Net := { netCalls : list NetCall }.

Definition netCall (c : NetCall) : M Net unit :=
  fun w => ({| netCalls := netCalls w ++ [c] |}, Resolved tt).

(** [!s] for [s : string | undefined]. *)
Definition unset (s : option jsstring) : bool :=
  match s with
  | Some (_ :: _) => false
  | _ => true
  end.

(** [`${s}`] for [s : string | undefined]. *)
Definition textOf (s : option jsstring) : jsstring :=
  match s with
  | Some text => text
  | None => lit "undefined"
  end.

(** [v.key] on a value that is neither null nor undefined.  None of the
    keys read here is a property of the prototypes of strings, numbers,
    booleans or arrays. *)
Definition member (key : jsstring) (v : jsval) : option jsval :=
  match v with
  | JObj fields => lookupField key fields
  | _ => None
  end.

(** [v[0]] on a value that is neither null nor undefined. *)
Definition first (v : jsval) : option jsval :=
  match v with
  | JArr (x :: _) => Some x
  | JObj fields => lookupField (lit "0") fields
  | JStr (c :: _) => Some (JStr [c])
  | _ => None
  end.

(** [o?.p]: undefined when [o] is null or undefined. *)
Definition optional (access : jsval -> option jsval) (o : option jsval) : option jsval :=
  match o with
  | None => None
  | Some JNull => None
  | Some v => access v
  end.

(** [!x] for a value or undefined. *)
Definition falsy (x : option jsval) : bool :=
  match x with
  | None => true
  | Some JNull => true
  | Some (JBool b) => negb b
  | Some (JNum n) =>
      match n with
      | S754_zero _ => true
      | S754_nan => true
      | _ => false
      end
  | Some (JStr []) => true
  | Some _ => false
  end.

(** [data.candidates?.[0]?.content?.parts?.[0]?.text] *)
Definition candidateText `{Engine} {W} (data : jsval) : M W (option jsval) :=
  candidates ← getProp data (lit "candidates");
  ret (optional (member (lit "text"))
        (optional first
          (optional (member (lit "parts"))
            (optional (member (lit "content"))
              (optional first candidates))))).

Definition GEMINI_URL : jsstring :=
  lit "https://generativelanguage.googleapis.com/v1beta/models/gemini-2.0-flash:generateContent".

Definition safetySetting (category : string) : jsval :=
  JObj [(lit "category", JStr (lit category));
        (lit "threshold", JStr (lit "BLOCK_MEDIUM_AND_ABOVE"))].

(** The body of the request of [callAIAPI], before it is printed. *)
Definition textRequest (prompt : jsstring) : jsval :=
  JObj [(lit "contents",
         JArr [JObj [(lit "parts", JArr [JObj [(lit "text", JStr prompt)]])]]);
        (lit "generationConfig",
         JObj [(lit "temperature", JNum lit_0_7);
               (lit "maxOutputTokens", JNum (number_of_Z 1000));
               (lit "topP", JNum lit_0_8);
               (lit "topK", JNum (number_of_Z 40))])].

(** [base64File.split(',')[1]], undefined when the text has no comma. *)
Definition payloadOf (base64File : jsstring) : option jsstring :=
  String_split COMMA base64File !! 1%nat.

(** The body of the request of [callAIAPIWithFile].  A property whose
    value is undefined is not printed, so it is not listed. *)
Definition fileRequest (prompt mime_type : jsstring) (data : option jsstring) : jsval :=
  JObj [(lit "contents",
         JArr [JObj [(lit "parts",
           JArr [JObj [(lit "text", JStr prompt)];
                 JObj [(lit "inline_data",
                        JObj ((lit "mime_type", JStr mime_type)
                              :: match data with
                                 | Some payload => [(lit "data", JStr payload)]
                                 | None => []
                                 end))]])]]);
        (lit "generationConfig",
         JObj [(lit "temperature", JNum lit_0_3);
               (lit "maxOutputTokens", JNum (number_of_Z 2048));
               (lit "topP", JNum lit_0_8);
               (lit "topK", JNum (number_of_Z 40))]);
        (lit "safetySettings",
         JArr [safetySetting "HARM_CATEGORY_HARASSMENT";
               safetySetting "HARM_CATEGORY_HATE_SPEECH";
               safetySetting "HARM_CATEGORY_SEXUALLY_EXPLICIT";
               safetySetting "HARM_CATEGORY_DANGEROUS_CONTENT"])].

Definition post (url body : jsstring) : Request :=
  {| req_url := url;
     req_method := lit "POST";
     req_headers := [(lit "Content-Type", lit "application/json")];
     req_body := body |}.

Section Client.
Context `{Engine} (platform : Platform).

(** The promise resolves with [reader.result] on [load] and rejects with
    the event on [error]. *)
Definition fileToBase64 (file : File) : M Net jsstring :=
  netCall (ReadAsDataURL file) ;;
  match fileReader platform file with
  | Some result => ret result
  | None => throw EventObject
  end.

Definition await_fetch (request : Request) : M Net Response :=
  netCall (Fetch request) ;; lift (fetch platform request).

Definition await_json (response : Response) : M Net jsval :=
  netCall ResponseJson ;; lift (res_json response).

Definition callAIAPI (prompt : jsstring) : M Net jsval :=
  let API_KEY := NEXT_PUBLIC_AI_API_KEY platform in
  let API_URL := NEXT_PUBLIC_AI_API_URL platform in
  if unset API_KEY || unset API_URL then
    throw (ErrorObject PlainError
             (lit "AI API configuration missing. Please check your .env.local file."))
  else
    response ← await_fetch
      (post (textOf API_URL ++ lit "?key=" ++ textOf API_KEY)
            (JSON_stringify (textRequest prompt)));
    if negb (res_ok response) then
      throw (ErrorObject PlainError
               (lit "AI API request failed: " ++ res_statusText response))
    else
      data ← await_json response;
      text ← candidateText data;
      match text with
      | Some value =>
          if falsy text then
            throw (ErrorObject PlainError (lit "Invalid AI API response"))
          else ret value
      | None => throw (ErrorObject PlainError (lit "Invalid AI API response"))
      end.

Definition callAIAPIWithFile (file : File) (prompt : jsstring) : M Net jsval :=
  let API_KEY := NEXT_PUBLIC_AI_API_KEY platform in
  let API_URL := GEMINI_URL in
  if unset API_KEY then
    throw (ErrorObject PlainError
             (lit "AI API key missing. Please check your .env.local file."))
  else
    base64File ← fileToBase64 file;
    tryCatchFinally
      (response ← await_fetch
         (post (API_URL ++ lit "?key=" ++ textOf API_KEY)
               (JSON_stringify
                  (fileRequest prompt (file_type file) (payloadOf base64File))));
       if negb (res_ok response) then
         errorData ← await_json response;
         throw (ErrorObject PlainError
                  (lit "AI API request failed: " ++ res_statusText response
                   ++ lit " - " ++ JSON_stringify errorData))
       else
         data ← await_json response;
         text ← candidateText data;
         match text with
         | Some value =>
             if falsy text then
               throw (ErrorObject PlainError (lit "Invalid AI API response format"))
             else ret value
         | None =>
             throw (ErrorObject PlainError (lit "Invalid AI API response format"))
         end)
      (fun error => throw error)
      (ret tt).
End Client.

(* --------------------------------------------------------------------- *)
(** ** The OCR worker                                                     *)
(* --------------------------------------------------------------------- *)

(** The calls on tesseract.js, in order. *)
Inductive OCRCall :=
| CreateWorker
| LoadLanguage (lang : jsstring)
| Initialize (lang : jsstring)
| Recognize (image : File).

(** The outcome of a call on the library, given the calls made before it.
    For [recognize] the value is [result.data.text]. *)
Definition Tesseract := list OCRCall -> OCRCall -> outcome jsstring.

(** The module variable [worker] (a worker is told from another by the
    rank of the call that created it) and the calls made so far. *)
Record OCR := { worker : option nat; ocrCalls : list OCRCall }.

Definition tesseractCall (tesseract : Tesseract) (c : OCRCall) : M OCR jsstring :=
  fun w =>
    ({| worker := worker w; ocrCalls := ocrCalls w ++ [c] |},
     tesseract (ocrCalls w) c).

Definition createWorker (tesseract : Tesseract) : M OCR nat :=
  fun w =>
    ({| worker := worker w; ocrCalls := ocrCalls w ++ [CreateWorker] |},
     match tesseract (ocrCalls w) CreateWorker with
     | Resolved _ => Resolved (length (ocrCalls w))
     | Rejected error => Rejected error
     end).

Definition setWorker (created : nat) : M OCR unit :=
  fun w => ({| worker := Some created; ocrCalls := ocrCalls w |}, Resolved tt).

Definition initializeOCR (tesseract : Tesseract) : M OCR unit :=
  fun w =>
    (if isNull (worker w) then
       created ← createWorker tesseract;
       setWorker created ;;
       tesseractCall tesseract (LoadLanguage (lit "eng")) ;;
       tesseractCall tesseract (Initialize (lit "eng")) ;;
       ret tt
     else ret tt) w.

Definition processImage (tesseract : Tesseract) (imageFile : File) : M OCR jsstring :=
  (fun w => (if isNull (worker w) then initializeOCR tesseract else ret tt) w) ;;
  tesseractCall tesseract (Recognize imageFile).

(* --------------------------------------------------------------------- *)
(** ** The grading page: the other handlers and the buttons               *)
(* --------------------------------------------------------------------- *)

Definition setSubject (value : jsstring) : M Page unit :=
  fun p =>
    ({| subject := Some value; studentFiles := studentFiles p;
        rubricFile := rubricFile p; useTemplateRubric := useTemplateRubric p;
        isSubmitting := isSubmitting p; calls := calls p |},
     Resolved tt).

Definition setStudentFiles (files : list File) : M Page unit :=
  fun p =>
    ({| subject := subject p; studentFiles := files;
        rubricFile := rubricFile p; useTemplateRubric := useTemplateRubric p;
        isSubmitting := isSubmitting p; calls := calls p |},
     Resolved tt).

Definition setRubricFile (file : option File) : M Page unit :=
  fun p =>
    ({| subject := subject p; studentFiles := studentFiles p;
        rubricFile := file; useTemplateRubric := useTemplateRubric p;
        isSubmitting := isSubmitting p; calls := calls p |},
     Resolved tt).

Definition setUseTemplateRubric (b : bool) : M Page unit :=
  fun p =>
    ({| subject := subject p; studentFiles := studentFiles p;
        rubricFile := rubricFile p; useTemplateRubric := b;
        isSubmitting := isSubmitting p; calls := calls p |},
     Resolved tt).

Definition handleStudentFilesChange (files : list File) : M Page unit :=
  setStudentFiles files.

Definition handleRubricFileChange (files : list File) : M Page unit :=
  match files with
  | file :: _ => setRubricFile (Some file) ;; setUseTemplateRubric false
  | [] => setRubricFile None
  end.

Definition handleUseTemplateChange (value : jsstring) : M Page unit :=
  setUseTemplateRubric (bool_decide (value = lit "template")) ;;
  if bool_decide (value = lit "template") then setRubricFile None else ret tt.

(** The [disabled] property of the button [Continue to Rubric]. *)
Definition continueDisabled (p : Page) : bool :=
  noSubject (subject p) || (length (studentFiles p) =? 0)%nat.

(** The [disabled] property of the submit button of the rubric tab. *)
Definition rubricSubmitDisabled (p : Page) : bool :=
  isSubmitting p || (isNull (rubricFile p) && negb (useTemplateRubric p)).

(** The [disabled] property of the submit button of the card footer. *)
Definition footerSubmitDisabled (p : Page) : bool :=
  isSubmitting p || noSubject (subject p)
  || (length (studentFiles p) =? 0)%nat
  || (isNull (rubricFile p) && negb (useTemplateRubric p)).

(* ===================================================================== *)
(** * Part II: the vocabulary of the properties                           *)
(* ===================================================================== *)

(* --------------------------------------------------------------------- *)
(** ** Texts                                                              *)
(* --------------------------------------------------------------------- *)

(** What follows the run does not start with a character of the class. *)
Definition stopsAt (p : char -> bool) (s : jsstring) : Prop :=
  match s with
  | c :: _ => p c = false
  | [] => True
  end.

(** A sequence of pattern characters is compared with the input one
    character at a time. *)
Fixpoint startsWith (i : bool) (kw s : jsstring) : option jsstring :=
  match kw, s with
  | [], _ => Some s
  | c :: kw', x :: s' => if sameChar i c x then startsWith i kw' s' else None
  | _ :: _, [] => None
  end.

(** The pieces of a split, put together again with the separator. *)
Fixpoint join (sep : char) (pieces : list jsstring) : jsstring :=
  match pieces with
  | [] => []
  | [piece] => piece
  | piece :: rest => piece ++ sep :: join sep rest
  end.

(** What follows the last line terminator of a text (the text itself when
    it has none). *)
Definition lastLine (s : jsstring) : jsstring := rev (takeWhile isDot (rev s)).

(* --------------------------------------------------------------------- *)
(** ** Numbers                                                            *)
(* --------------------------------------------------------------------- *)

(** The integer a Number is, when it is one. *)
Definition integerValue (x : number) : option Z :=
  match x with
  | S754_zero _ => Some 0%Z
  | S754_finite s m e =>
      if (0 <=? e)%Z then Some (cond_Zopp s (Zpos m * 2 ^ e))%Z
      else if (Zpos m mod 2 ^ (- e) =? 0)%Z
           then Some (cond_Zopp s (Zpos m / 2 ^ (- e)))%Z
           else None
  | _ => None
  end.

(* --------------------------------------------------------------------- *)
(** ** Rubric lines                                                       *)
(* --------------------------------------------------------------------- *)

(** A parenthesised percentage: ["(" digits "%)"]. *)
Definition percentage (ds : jsstring) : jsstring :=
  LPAREN :: ds ++ [PERCENT; RPAREN].

(** [line] is [pre], then a parenthesised percentage of digits [ds], then
    [rest], and no parenthesised percentage starts in [line] before that
    one. *)
Definition firstPercentage (line pre ds rest : jsstring) : Prop :=
  line = pre ++ percentage ds ++ rest
  /\ ds <> [] /\ forallb isDigit ds = true
  /\ forall pre' ds' rest',
       line = pre' ++ percentage ds' ++ rest' ->
       ds' <> [] -> forallb isDigit ds' = true ->
       length pre <= length pre'.

(** [line] contains no parenthesised percentage. *)
Definition noPercentage (line : jsstring) : Prop :=
  forall pre ds rest,
    line = pre ++ percentage ds ++ rest ->
    ds <> [] -> forallb isDigit ds = true -> False.

(** The parenthesised percentage at the head of a text, if there is one:
    its digits and what follows it. *)
Definition percentAt (s : jsstring) : option (jsstring * jsstring) :=
  match s with
  | c :: s1 =>
      if (c =? LPAREN)%N then
        match takeWhile isDigit s1, dropWhile isDigit s1 with
        | (_ :: _) as ds, p :: r :: rest =>
            if (p =? PERCENT)%N && (r =? RPAREN)%N then Some (ds, rest) else None
        | _, _ => None
        end
      else None
  | [] => None
  end.

(** The first parenthesised percentage of a text, found by looking at each
    position from the left: what precedes it, its digits, what follows. *)
Fixpoint findPercentage (s : jsstring) :
    option (jsstring * jsstring * jsstring) :=
  match percentAt s with
  | Some (ds, rest) => Some ([], ds, rest)
  | None =>
      match s with
      | [] => None
      | c :: s' =>
          match findPercentage s' with
          | Some (pre, ds, rest) => Some (c :: pre, ds, rest)
          | None => None
          end
      end
  end.

(* --------------------------------------------------------------------- *)
(** ** Replies and totals                                                 *)
(* --------------------------------------------------------------------- *)

(** The digits of a score announced at the head of a text: the letters of
    ["SCORE:"] in either case, white space, then a run of digits. *)
Definition scoreAt (s : jsstring) : option jsstring :=
  match startsWith true (lit "SCORE:") s with
  | Some rest =>
      match takeWhile isDigit (trimStart rest) with
      | [] => None
      | ds => Some ds
      end
  | None => None
  end.

(** The digits of the first score announced in a text. *)
Fixpoint scoreDigits (s : jsstring) : option jsstring :=
  match scoreAt s with
  | Some ds => Some ds
  | None =>
      match s with
      | [] => None
      | _ :: s' => scoreDigits s'
      end
  end.

(** What [gradeCriterion] returns when the grading has failed. *)
Definition fallback (maxScore : number) (message : jsstring) : Graded :=
  {| graded_score := Math_floor (num_mul maxScore lit_0_7);
     graded_feedback :=
       lit "Unable to perform AI grading: " ++ message
       ++ lit ". Please review manually." |}.

(** The total as the specification words it:
    [round(100 * sum of scores / sum of maxScores)]. *)
Definition claimedTotalOf (criteriaResults : list CriterionResult) : number :=
  Math_round
    (num_div (num_mul (number_of_Z 100) (sumOf cr_score criteriaResults))
             (sumOf cr_maxScore criteriaResults)).

(* --------------------------------------------------------------------- *)
(** ** File names                                                         *)
(* --------------------------------------------------------------------- *)

Definition notDot (c : char) : bool := negb (c =? DOT)%N.
Definition notSlash (c : char) : bool := negb (c =? SLASH)%N.

(** The name without its final extension, as the specification words it:
    reading from the end, when the text after the last dot is not empty
    and has no slash, the name up to that dot; else the name. *)
Definition withoutExtension (name : jsstring) : jsstring :=
  let ext := takeWhile notDot (rev name) in
  match ext, dropWhile notDot (rev name) with
  | _ :: _, _ :: stem => if forallb notSlash ext then rev stem else name
  | _, _ => name
  end.

(* --------------------------------------------------------------------- *)
(** ** The form                                                           *)
(* --------------------------------------------------------------------- *)

(** The three validations of the form. *)
Definition subjectSelected (p : Page) : bool := negb (noSubject (subject p)).
Definition filesUploaded (p : Page) : bool :=
  negb (length (studentFiles p) =? 0)%nat.
Definition rubricChosen (p : Page) : bool :=
  negb (isNull (rubricFile p)) || useTemplateRubric p.

Definition gradingStarted : Toast :=
  {| title := lit "Grading started";
     description := lit "Your files have been uploaded and grading has begun";
     variant := DefaultVariant |}.

(* --------------------------------------------------------------------- *)
(** ** The operations of the authentication layer                         *)
(* --------------------------------------------------------------------- *)

Inductive AuthOperation :=
| Mount
| GetStoredUsers
| SaveUsers (users : jsval)
| Login (email password : jsstring)
| Register (random name email password : jsstring)
| Logout.

(** The world an operation leaves behind. *)
Definition worldAfter `{Engine} (op : AuthOperation) (a : Auth) : Auth :=
  match op with
  | Mount => fst (AuthProvider_useEffect a)
  | GetStoredUsers => fst (getStoredUsers a)
  | SaveUsers users => fst (saveUsers users a)
  | Login email password => fst (login email password a)
  | Register random name email password =>
      fst (register random name email password a)
  | Logout => fst (logout a)
  end.

Definition authKey (k : jsstring) : Prop :=
  k = USERS_STORAGE_KEY \/ k = CURRENT_USER_KEY.

(** [a'] comes from [a] by storage calls on the two keys only, and agrees
    with [a] on every other key. *)
Definition onAuthKeys (a a' : Auth) : Prop :=
  (exists new, storageCalls a' = storageCalls a ++ new
               /\ Forall (fun c => authKey (keyOf c)) new)
  /\ forall k, ~ authKey k -> localStorage a' !! k = localStorage a !! k.

Definition keepsToAuthKeys {A} (m : M Auth A) : Prop :=
  forall a, onAuthKeys a (fst (m a)).

(* --------------------------------------------------------------------- *)
(** ** Scores and weights                                                 *)
(* --------------------------------------------------------------------- *)

(** Zero, a positive finite Number or +infinity: neither NaN nor below
    zero. *)
Definition nonNegative (x : number) : bool :=
  match x with
  | S754_zero false | S754_finite false _ _ | S754_infinity false => true
  | _ => false
  end.

(** A score that is the fallback, or a non-negative Number that does not
    exceed [maxScore]. *)
Definition fallbackOrWithin (score maxScore : number) : Prop :=
  score = Math_floor (num_mul maxScore lit_0_7)
  \/ (nonNegative score = true /\ num_gt score maxScore = false).

(** The feedback of a percentage, by its thresholds. *)
Definition feedbackOfPercent (n : Z) : jsstring :=
  if (80 <=? n)%Z then lit "Excellent work overall!"
  else if (60 <=? n)%Z then lit "Good work with room for improvement."
  else if (40 <=? n)%Z then lit "Needs significant improvement."
  else lit "Requires extensive revision.".

(** The environment as the files from position [k] on see it. *)
Definition shift (k : nat) (env : Env) : Env :=
  {| api := fun i => api env (k + i);
     now := fun i => now env (k + i);
     random36 := fun i => random36 env (k + i) |}.

(* --------------------------------------------------------------------- *)
(** ** The client of the AI service                                       *)
(* --------------------------------------------------------------------- *)

Definition noCalls : Net := {| netCalls := [] |}.

Definition keyMissing : jsstring :=
  lit "AI API key missing. Please check your .env.local file.".

Definition configMissing : jsstring :=
  lit "AI API configuration missing. Please check your .env.local file.".

Definition notComma (c : char) : bool := negb (c =? COMMA)%N.

(** The request of [callAIAPI]. *)
Definition textRequestOf `{Engine} (platform : Platform) (prompt : jsstring) :
    Request :=
  post (textOf (NEXT_PUBLIC_AI_API_URL platform) ++ lit "?key="
        ++ textOf (NEXT_PUBLIC_AI_API_KEY platform))
       (JSON_stringify (textRequest prompt)).

(** The request of [callAIAPIWithFile] for a file read as [base64File]. *)
Definition geminiRequest `{Engine} (platform : Platform) (file : File)
    (prompt base64File : jsstring) : Request :=
  post (GEMINI_URL ++ lit "?key=" ++ textOf (NEXT_PUBLIC_AI_API_KEY platform))
       (JSON_stringify (fileRequest prompt (file_type file) (payloadOf base64File))).

(** [callAIAPIWithFile] as [gradeCriterion] calls it, the prompt being the
    template filled by [render].  When the text of the reply is not a
    string, [response.match] is not a function: the call of it throws a
    TypeError inside the same [try]. *)
Definition serviceOf `{Engine} (platform : Platform) (render : Prompt -> jsstring) :
    AIService :=
  fun file prompt _ =>
    match snd (callAIAPIWithFile platform file (render prompt) noCalls) with
    | Resolved (JStr text) => Resolved text
    | Resolved _ => Rejected (typeError (NotAFunction (lit "response.match")))
    | Rejected error => Rejected error
    end.

(** The environment of [processStudentAnswers] when the call for file [i]
    and criterion [j] runs on [platform i j]. *)
Definition envOf `{Engine} (platform : nat -> nat -> Platform)
    (render : Prompt -> jsstring) (clock : nat -> Z) (random : nat -> jsstring) :
    Env :=
  {| api := fun i j => serviceOf (platform i j) render;
     now := clock;
     random36 := random |}.

(* --------------------------------------------------------------------- *)
(** ** The OCR worker                                                     *)
(* --------------------------------------------------------------------- *)

(** The module as it is loaded: no worker, no call made. *)
Definition idle : OCR := {| worker := None; ocrCalls := [] |}.

Definition ENG : jsstring := lit "eng".

(** The images processed one after the other. *)
Fixpoint processImages (tesseract : Tesseract) (images : list File) :
    M OCR (list jsstring) :=
  match images with
  | [] => ret []
  | image :: rest =>
      text ← processImage tesseract image;
      texts ← processImages tesseract rest;
      ret (text :: texts)
  end.

(** The texts of the images, when the library answers the call [c] made
    after the calls [done] with [answer done c]. *)
Fixpoint recognized (answer : list OCRCall -> OCRCall -> jsstring)
    (done : list OCRCall) (images : list File) : list jsstring :=
  match images with
  | [] => []
  | image :: rest =>
      answer done (Recognize image)
      :: recognized answer (done ++ [Recognize image]) rest
  end.

(* --------------------------------------------------------------------- *)
(** ** The events of the form                                             *)
(* --------------------------------------------------------------------- *)

Inductive PageEvent :=
| SubjectChange (value : jsstring)
| StudentFilesChange (files : list File)
| RubricFileChange (files : list File)
| UseTemplateChange (value : jsstring)
| Submit (clock : Z).

Definition handlerOf (e : PageEvent) : M Page unit :=
  match e with
  | SubjectChange value => setSubject value
  | StudentFilesChange files => handleStudentFilesChange files
  | RubricFileChange files => handleRubricFileChange files
  | UseTemplateChange value => handleUseTemplateChange value
  | Submit clock => handleSubmit clock
  end.

(** The page as it is first rendered. *)
Definition initialPage : Page :=
  {| subject := None; studentFiles := []; rubricFile := None;
     useTemplateRubric := false; isSubmitting := false; calls := [] |}.

Definition pageAfter (events : list PageEvent) (p : Page) : Page :=
  fold_left (fun p e => fst (handlerOf e p)) events p.

(** Not both an uploaded rubric and the template. *)
Definition oneRubricSource (p : Page) : bool :=
  isNull (rubricFile p) || negb (useTemplateRubric p).

Definition subjectRequired : Toast :=
  {| title := lit "Subject required";
     description := lit "Please select a subject for grading";
     variant := Destructive |}.

Definition filesRequired : Toast :=
  {| title := lit "Student files required";
     description := lit "Please upload at least one student answer file";
     variant := Destructive |}.

(* --------------------------------------------------------------------- *)
(** ** The stored users                                                   *)
(* --------------------------------------------------------------------- *)

(** The email of a stored user, when it has one that is a string. *)
Definition emailOf (u : jsval) : option jsstring :=
  match u with
  | JObj fields =>
      match lookupField (lit "email") fields with
      | Some (JStr email) => Some email
      | _ => None
      end
  | _ => None
  end.

(** What [users.some(u => u.email === email)] comes to. *)
Fixpoint taken `{Engine} (email : jsstring) (items : list jsval) : outcome bool :=
  match items with
  | [] => Resolved false
  | JNull :: _ => Rejected (typeError (PropertyOfNull (lit "email")))
  | u :: rest =>
      if bool_decide (emailOf u = Some email) then Resolved true
      else taken email rest
  end.

(** The object [register] appends to the users, and the one it makes the
    current user. *)
Definition newUserOf (random name email password : jsstring) : jsval :=
  JObj [(lit "id", JStr (lit "user-" ++ substr random 2 9));
        (lit "name", JStr name);
        (lit "email", JStr email);
        (lit "password", JStr password)].

Definition userDataOf (random name email : jsstring) : jsval :=
  JObj [(lit "id", JStr (lit "user-" ++ substr random 2 9));
        (lit "name", JStr name);
        (lit "email", JStr email)].

Definition alreadyRegistered : thrown :=
  ErrorObject PlainError (lit "Email already registered").

(** The state [register] leaves when it throws before it writes: the
    users have been read, nothing has been written. *)
Definition refused (a : Auth) : Auth :=
  {| user := user a; loading := false; localStorage := localStorage a;
     storageCalls := storageCalls a ++ [GetItem USERS_STORAGE_KEY] |}.

(** The two texts [register] writes, [items] being the users it has
    read. *)
Definition usersText `{Engine} (random name email password : jsstring)
    (items : list jsval) : jsstring :=
  JSON_stringify (JArr (items ++ [newUserOf random name email password])).

Definition currentText `{Engine} (random name email : jsstring) : jsstring :=
  JSON_stringify (userDataOf random name email).

(** The state [register] leaves when the browser refuses the write of the
    users: nothing is stored, the current user is what it was. *)
Definition usersRefused `{Engine} (random name email password : jsstring)
    (items : list jsval) (a : Auth) : Auth :=
  {| user := user a; loading := false; localStorage := localStorage a;
     storageCalls :=
       storageCalls a
       ++ [GetItem USERS_STORAGE_KEY;
           SetItem USERS_STORAGE_KEY (usersText random name email password items)] |}.

(** The state [register] leaves when the browser accepts the write of the
    users and refuses the write of the current user: the users are stored
    and the current user is set, ["current_user"] is not stored. *)
Definition currentRefused `{Engine} (random name email password : jsstring)
    (items : list jsval) (a : Auth) : Auth :=
  let users := usersText random name email password items in
  {| user := userDataOf random name email;
     loading := false;
     localStorage := <[USERS_STORAGE_KEY := users]> (localStorage a);
     storageCalls :=
       storageCalls a
       ++ [GetItem USERS_STORAGE_KEY; SetItem USERS_STORAGE_KEY users;
           SetItem CURRENT_USER_KEY (currentText random name email)] |}.

(** The state [register] leaves when it returns. *)
Definition registered `{Engine} (random name email password : jsstring)
    (items : list jsval) (a : Auth) : Auth :=
  let users := usersText random name email password items in
  let current := currentText random name email in
  {| user := userDataOf random name email;
     loading := false;
     localStorage :=
       <[CURRENT_USER_KEY := current]>
         (<[USERS_STORAGE_KEY := users]> (localStorage a));
     storageCalls :=
       storageCalls a
       ++ [GetItem USERS_STORAGE_KEY; SetItem USERS_STORAGE_KEY users;
           SetItem CURRENT_USER_KEY current] |}.

(** What [register] does once it has found the email free: the two
    writes, each of which the browser may refuse. *)
Definition registerWrites `{Engine} (random name email password : jsstring)
    (items : list jsval) (a : Auth) : Auth * outcome unit :=
  let users := usersText random name email password items in
  let current := currentText random name email in
  match quotaExceeded (localStorage a) USERS_STORAGE_KEY users with
  | Some error => (usersRefused random name email password items a, Rejected error)
  | None =>
      match quotaExceeded (<[USERS_STORAGE_KEY := users]> (localStorage a))
                          CURRENT_USER_KEY current with
      | Some error =>
          (currentRefused random name email password items a, Rejected error)
      | None => (registered random name email password items a, Resolved tt)
      end
  end.

(** The engine accepts every write on [localStorage]. *)
Definition acceptsEveryWrite `{Engine} : Prop :=
  forall storage key value, quotaExceeded storage key value = None.

(** The provider after the page is loaded again: its state is the initial
    one, the storage is what it was. *)
Definition reload (a : Auth) : Auth :=
  {| user := JNull; loading := true; localStorage := localStorage a;
     storageCalls := storageCalls a |}.

(* --------------------------------------------------------------------- *)
(** ** Sample inputs                                                      *)
(* --------------------------------------------------------------------- *)

(** A file, and an environment in which the service answers every call
    with the same text. *)
Definition essay : File :=
  {| file_name := lit "alice.essay.png"; file_type := lit "image/png" |}.

Definition answering (text : jsstring) : Env :=
  {| api := fun _ _ _ _ _ => Resolved text;
     now := fun _ => 1700000000000%Z;
     random36 := fun _ => lit "0.4fzyo82mvyr" |}.

(** A state to run the provider from: no user, nothing stored. *)
Definition freshAuth : Auth :=
  {| user := JNull; loading := true; localStorage := ∅; storageCalls := [] |}.

(** The small engine in a browser that refuses every write under
    ["current_user"], and the error it throws then. *)
Definition quotaError : thrown :=
  ErrorObject OtherError (lit "The quota has been exceeded.").

Definition fullStorageEngine : Engine :=
  {| JSON_parse := mini_parse;
     JSON_stringify := mini_stringify;
     typeError := typeError (Engine := miniEngine);
     quotaExceeded := fun _ key _ =>
       if bool_decide (key = CURRENT_USER_KEY) then Some quotaError else None |}.

(** The state after Al has registered with the password [hunter2]. *)
Definition authWithAl : Auth :=
  fst (register (H := miniEngine) (lit "0.4fzyo82mvyr") (lit "Al")
         (lit "al@example.org") (lit "hunter2") freshAuth).

(* ===================================================================== *)
(** * Part III: properties                                                *)
(* ===================================================================== *)

(* --------------------------------------------------------------------- *)
(** ** The embedding on concrete values                                   *)
(* --------------------------------------------------------------------- *)

(** The literal [0.7] is the quotient 7 / 10 correctly rounded. *)
Example lit_0_7_is_7_tenths :
  num_div (number_of_Z 7) (number_of_Z 10) = lit_0_7.
Proof. reflexivity. Qed.

(** [Math.round(2.5)] is 3, [Math.round(-2.5)] is -2, [Math.round(-0.5)]
    is -0, [Math.floor(-2.5)] is -3. *)
Example Math_round_half :
  Math_round (S754_finite false 5 (-1)) = number_of_Z 3
  /\ Math_round (S754_finite true 5 (-1)) = number_of_Z (-2)
  /\ Math_round (S754_finite true 1 (-1)) = S754_zero true
  /\ Math_floor (S754_finite true 5 (-1)) = number_of_Z (-3).
Proof. by repeat split. Qed.

(** In binary64, 90 * 0.7 is 62.99999999999999 and 40 * 0.7 is 28. *)
Example fallback_scores :
  Math_floor (num_mul (number_of_Z 90) lit_0_7) = number_of_Z 62
  /\ Math_floor (num_mul (number_of_Z 40) lit_0_7) = number_of_Z 28.
Proof. by split. Qed.

(** [23 / 40] is the binary64 value just below 0.575, and [23 / 40 * 100]
    is the binary64 value just below 57.5, which JavaScript prints as
    57.49999999999999; [100 * 23 / 40] is 57.5. *)
Example quotient_times_100 :
  num_div (number_of_Z 23) (number_of_Z 40)
  = S754_finite false 5179139571476070 (-53)
  /\ num_mul (num_div (number_of_Z 23) (number_of_Z 40)) (number_of_Z 100)
     = S754_finite false 8092405580431359 (-47)
  /\ num_div (num_mul (number_of_Z 100) (number_of_Z 23)) (number_of_Z 40)
     = S754_finite false 8092405580431360 (-47)
  /\ (2 * 8092405580431360 = 115 * 2 ^ 47)%Z.
Proof. by repeat split. Qed.

(** [parseInt] reads an integer beyond 2^53 to the nearest Number. *)
Example parseInt10_rounds :
  parseInt10 (lit "9007199254740993") = number_of_Z 9007199254740992
  /\ parseInt10 (lit " 42abc") = number_of_Z 42
  /\ parseInt10 (lit "abc") = NaN.
Proof. by repeat split. Qed.

Example split_lines :
  String_split LF (lit "a" ++ [LF] ++ [LF] ++ lit "b" ++ [LF])
  = [lit "a"; []; lit "b"; []].
Proof. reflexivity. Qed.

Example withoutExtension_names :
  withoutExtension (lit "essay.final.png") = lit "essay.final"
  /\ withoutExtension (lit "essay") = lit "essay"
  /\ withoutExtension (lit "essay.") = lit "essay."
  /\ withoutExtension (lit "v1.2/essay") = lit "v1.2/essay"
  /\ withoutExtension (lit ".hidden") = [].
Proof. by repeat split. Qed.

(** The reply is searched for the first ["SCORE:"] followed by digits,
    whatever the case of the letters. *)
Example scoreDigits_replies :
  scoreDigits (lit "Score:7, then SCORE: 12") = Some (lit "7")
  /\ scoreDigits (lit "SCORE: high. score:" ++ [LF] ++ lit " 31/40")
     = Some (lit "31")
  /\ scoreDigits (lit "SCORE: -3") = None.
Proof. by repeat split. Qed.

(* --------------------------------------------------------------------- *)
(** ** The authentication context                                         *)
(* --------------------------------------------------------------------- *)

Lemma onAuthKeys_refl a : onAuthKeys a a.
Proof.
  split; [exists []; split; [by rewrite app_nil_r | constructor] | done].
Qed.

Lemma onAuthKeys_trans a b c :
  onAuthKeys a b -> onAuthKeys b c -> onAuthKeys a c.
Proof.
  intros [(n1 & E1 & F1) K1] [(n2 & E2 & F2) K2]. split.
  - exists (n1 ++ n2). split.
    + by rewrite E2, E1, app_assoc.
    + by apply Forall_app.
  - intros k Hk. by rewrite K2, K1.
Qed.

Lemma keeps_ret {A} (x : A) : keepsToAuthKeys (ret x).
Proof. intros a. apply onAuthKeys_refl. Qed.

Lemma keeps_throw {A} e : keepsToAuthKeys (@throw Auth A e).
Proof. intros a. apply onAuthKeys_refl. Qed.

Lemma keeps_lift {A} (r : outcome A) : keepsToAuthKeys (lift r).
Proof. intros a. apply onAuthKeys_refl. Qed.

Lemma keeps_bind {A B} (m : M Auth A) (f : A -> M Auth B) :
  keepsToAuthKeys m -> (forall x, keepsToAuthKeys (f x)) ->
  keepsToAuthKeys (bind m f).
Proof.
  intros Hm Hf a. unfold bind. specialize (Hm a).
  destruct (m a) as [a1 [x | e]]; simpl in *; [|done].
  eapply onAuthKeys_trans; [exact Hm | apply Hf].
Qed.

Lemma keeps_tryCatchFinally {A} (body : M Auth A) handler finalizer :
  keepsToAuthKeys body -> (forall e, keepsToAuthKeys (handler e)) ->
  keepsToAuthKeys finalizer ->
  keepsToAuthKeys (tryCatchFinally body handler finalizer).
Proof.
  intros Hb Hh Hf a. unfold tryCatchFinally. specialize (Hb a).
  destruct (body a) as [a1 r1]; simpl in *.
  assert (exists a2 r2,
             match r1 with
             | Rejected error => handler error a1
             | Resolved _ => (a1, r1)
             end = (a2, r2) /\ onAuthKeys a a2) as (a2 & r2 & -> & H2).
  { destruct r1 as [x | e].
    - by exists a1, (Resolved x).
    - specialize (Hh e a1). destruct (handler e a1) as [a2 r2].
      exists a2, r2. split; [done |]. eapply onAuthKeys_trans; eauto. }
  specialize (Hf a2). destruct (finalizer a2) as [a3 [[] | e]]; simpl in *;
    eapply onAuthKeys_trans; eauto.
Qed.

Lemma keeps_setUser u : keepsToAuthKeys (setUser u).
Proof.
  intros a. split; simpl; [| done].
  exists []. split; [by rewrite app_nil_r | constructor].
Qed.

Lemma keeps_setLoading b : keepsToAuthKeys (setLoading b).
Proof.
  intros a. split; simpl; [| done].
  exists []. split; [by rewrite app_nil_r | constructor].
Qed.

Lemma keeps_getItem k : authKey k -> keepsToAuthKeys (localStorage_getItem k).
Proof.
  intros Hk a. split; simpl; [| done].
  exists [GetItem k]. split; [done | constructor; [exact Hk | constructor]].
Qed.

Lemma keeps_setItem `{Engine} k v :
  authKey k -> keepsToAuthKeys (localStorage_setItem k v).
Proof.
  intros Hk a. unfold localStorage_setItem.
  destruct (quotaExceeded (localStorage a) k v); split; simpl.
  - exists [SetItem k v]. split; [done | constructor; [exact Hk | constructor]].
  - done.
  - exists [SetItem k v]. split; [done | constructor; [exact Hk | constructor]].
  - intros k' Hk'. apply lookup_insert_ne. by intros ->.
Qed.

Lemma keeps_removeItem k : authKey k -> keepsToAuthKeys (localStorage_removeItem k).
Proof.
  intros Hk a. split; simpl.
  - exists [RemoveItem k]. split; [done | constructor; [exact Hk | constructor]].
  - intros k' Hk'. apply lookup_delete_ne. by intros ->.
Qed.

Lemma keeps_some (f : jsval -> M Auth bool) items :
  (forall u, keepsToAuthKeys (f u)) -> keepsToAuthKeys (some f items).
Proof.
  intros Hf. induction items as [| u rest IH]; simpl.
  - apply keeps_ret.
  - apply keeps_bind; [apply Hf |]. intros []; [apply keeps_ret | exact IH].
Qed.

Lemma keeps_hasEmail `{Engine} email u : keepsToAuthKeys (hasEmail email u).
Proof.
  unfold hasEmail. apply keeps_bind.
  - destruct u; simpl; first [apply keeps_throw | apply keeps_ret].
  - intros x. apply keeps_ret.
Qed.

Lemma users_key_auth : authKey USERS_STORAGE_KEY.
Proof. by left. Qed.

Lemma current_key_auth : authKey CURRENT_USER_KEY.
Proof. by right. Qed.

Create HintDb auth.
#[local] Hint Resolve keeps_ret keeps_throw keeps_lift keeps_setUser
  keeps_setLoading keeps_getItem keeps_setItem keeps_removeItem keeps_some
  keeps_hasEmail users_key_auth current_key_auth : auth.

Ltac keeps :=
  repeat first
    [ apply keeps_bind; [| intros ?]
    | apply keeps_tryCatchFinally; [| intros ? |]
    | progress eauto with auth
    | match goal with
      | |- keepsToAuthKeys (match ?x with _ => _ end) => destruct x
      end ].

Section AuthKeys.
Context `{Engine}.

Lemma keeps_useEffect : keepsToAuthKeys AuthProvider_useEffect.
Proof. unfold AuthProvider_useEffect. keeps. Qed.

Lemma keeps_getStoredUsers : keepsToAuthKeys getStoredUsers.
Proof. unfold getStoredUsers. keeps. Qed.

Lemma keeps_saveUsers users : keepsToAuthKeys (saveUsers users).
Proof. unfold saveUsers. keeps. Qed.

Lemma keeps_login email password : keepsToAuthKeys (login email password).
Proof. unfold login. keeps. Qed.

Lemma keeps_register random name email password :
  keepsToAuthKeys (register random name email password).
Proof.
  unfold register. pose proof keeps_getStoredUsers.
  pose proof keeps_saveUsers. keeps.
Qed.

Lemma keeps_logout : keepsToAuthKeys logout.
Proof. unfold logout. keeps. Qed.
End AuthKeys.

(** C6.  Whatever operation of the authentication layer runs, from
    whatever state: the calls it makes on [localStorage] are all on the
    keys ["fairgrade_users"] and ["current_user"], and every other key of
    the storage holds afterwards what it held before. *)
Theorem auth_touches_two_keys `{Engine} (op : AuthOperation) (a : Auth) :
  (exists new,
      storageCalls (worldAfter op a) = storageCalls a ++ new
      /\ Forall (fun c => keyOf c = lit "fairgrade_users"
                          \/ keyOf c = lit "current_user") new)
  /\ forall k, k <> lit "fairgrade_users" -> k <> lit "current_user" ->
               localStorage (worldAfter op a) !! k = localStorage a !! k.
Proof.
  assert (onAuthKeys a (worldAfter op a)) as [Hc Hk].
  { destruct op; cbn [worldAfter].
    - apply keeps_useEffect.
    - apply keeps_getStoredUsers.
    - apply keeps_saveUsers.
    - apply keeps_login.
    - apply keeps_register.
    - apply keeps_logout. }
  split; [exact Hc |].
  intros k H1 H2. apply Hk. by intros [-> | ->].
Qed.

(** C8.  [login] returns normally whatever the email and the password,
    makes no call on [localStorage] and leaves it as it was, and sets the
    current user to the object [{email}]; run from the same state with the
    same email, two passwords give the same outcome and the same state. *)
Theorem login_ignores_password `{Engine} (email password1 password2 : jsstring)
    (a : Auth) :
  login email password1 a = login email password2 a
  /\ snd (login email password1 a) = Resolved tt
  /\ user (fst (login email password1 a)) = JObj [(lit "email", JStr email)]
  /\ loading (fst (login email password1 a)) = false
  /\ storageCalls (fst (login email password1 a)) = storageCalls a
  /\ localStorage (fst (login email password1 a)) = localStorage a.
Proof. by repeat split. Qed.

Section Register.
Context `{Engine}.

(** The callback of [some] changes no state. *)
Lemma hasEmail_world email u (a : Auth) : fst (hasEmail email u a) = a.
Proof. by destruct u. Qed.

Lemma some_hasEmail_world email items (a : Auth) :
  fst (some (hasEmail email) items a) = a.
Proof.
  induction items as [| u rest IH]; [done |].
  simpl. unfold bind at 1.
  pose proof (hasEmail_world email u a) as Hu.
  destruct (hasEmail email u a) as [a1 [[] | e]]; simpl in *; subst; auto.
Qed.

(** An entry that is not null and whose [email] is the one looked for
    stops the search, provided no entry before it is null. *)
Lemma some_hasEmail_found email items (a : Auth) :
  Forall (fun u => u <> JNull) items ->
  Exists (fun u => exists fields,
              u = JObj fields
              /\ lookupField (lit "email") fields = Some (JStr email)) items ->
  some (hasEmail email) items a = (a, Resolved true).
Proof.
  intros Hnn Hex. induction Hex as [u rest (fields & -> & Hf) | u rest Hex IH].
  - simpl. unfold bind, hasEmail, getProp, ret. simpl. rewrite Hf. simpl.
    by rewrite bool_decide_eq_true_2.
  - inversion Hnn as [| ? ? Hu Hrest]; subst. specialize (IH Hrest).
    simpl. unfold bind at 1.
    destruct u as [| b | n | s | l | fields]; try done; simpl;
      try exact IH.
    unfold hasEmail, getProp, bind, ret. simpl.
    by destruct (strictEqString (lookupField (lit "email") fields) email).
Qed.

(** What the search comes to. *)
Lemma some_hasEmail_taken (email : jsstring) (items : list jsval) (a : Auth) :
  some (hasEmail email) items a = (a, taken email items).
Proof.
  induction items as [| u rest IH]; [done |].
  cbn [some taken]. unfold bind at 1.
  destruct u as [| b | n | s | l | fields]; cbn; try exact IH; [done |].
  unfold emailOf.
  destruct (lookupField (lit "email") fields) as [[| | | e | |] |]; cbn;
    try (rewrite bool_decide_eq_false_2 by done; exact IH).
  destruct (decide (e = email)) as [-> | Hne].
  - by rewrite !bool_decide_eq_true_2.
  - rewrite !bool_decide_eq_false_2 by congruence. exact IH.
Qed.

Lemma getStoredUsers_run (a : Auth) :
  getStoredUsers a
  = ({| user := user a; loading := loading a; localStorage := localStorage a;
        storageCalls := storageCalls a ++ [GetItem USERS_STORAGE_KEY] |},
     snd (getStoredUsers a)).
Proof.
  unfold getStoredUsers, bind, localStorage_getItem, lift, ret.
  by destruct (localStorage a !! USERS_STORAGE_KEY) as [[| c t] |].
Qed.

Lemma getStoredUsers_loading (b : bool) (a : Auth) :
  snd (getStoredUsers (fst (setLoading b a))) = snd (getStoredUsers a).
Proof.
  unfold getStoredUsers, bind, localStorage_getItem, lift, ret. cbn.
  by destruct (localStorage a !! USERS_STORAGE_KEY) as [[| c t] |].
Qed.

(** The outcome of [register], case by case. *)
Lemma register_run (random name email password : jsstring) (a : Auth) :
  register random name email password a
  = match snd (getStoredUsers a) with
    | Rejected error => (refused a, Rejected error)
    | Resolved (JArr items) =>
        match taken email items with
        | Rejected error => (refused a, Rejected error)
        | Resolved true => (refused a, Rejected alreadyRegistered)
        | Resolved false => registerWrites random name email password items a
        end
    | Resolved JNull =>
        (refused a, Rejected (typeError (PropertyOfNull (lit "some"))))
    | Resolved _ =>
        (refused a, Rejected (typeError (NotAFunction (lit "users.some"))))
    end.
Proof.
  rewrite <- (getStoredUsers_loading true a).
  unfold register, tryCatchFinally, bind, throw.
  destruct (setLoading true a) as [a0 r0] eqn:H0.
  injection H0 as <- <-. cbn [fst].
  rewrite getStoredUsers_run.
  destruct (snd (getStoredUsers _)) as [users | error]; [| done].
  destruct users as [| | | | items |]; try done. cbn [snd].
  rewrite some_hasEmail_taken.
  destruct (taken email items) as [[] | error]; try done.
  unfold saveUsers, setUser, localStorage_setItem, setLoading, registerWrites,
    usersRefused, currentRefused, registered, usersText, currentText,
    newUserOf, userDataOf.
  cbn [localStorage user loading storageCalls withoutField List.filter fst snd].
  destruct (quotaExceeded (localStorage a) USERS_STORAGE_KEY _);
    cbn [localStorage user loading storageCalls fst snd];
    [by rewrite <- !app_assoc |].
  destruct (quotaExceeded (<[USERS_STORAGE_KEY := _]> (localStorage a))
              CURRENT_USER_KEY _);
    cbn [localStorage user loading storageCalls fst snd];
    by rewrite <- !app_assoc.
Qed.

Lemma omap_step {A B} (f : A -> option B) (x : A) (l : list A) :
  omap f (x :: l)
  = match f x with Some y => y :: omap f l | None => omap f l end.
Proof. reflexivity. Qed.

Lemma taken_false (email : jsstring) (items : list jsval) :
  taken email items = Resolved false ->
  ~ In email (omap emailOf items).
Proof.
  induction items as [| u rest IH]; [by intros _ [] |].
  cbn [taken]. rewrite omap_step.
  destruct u as [| b | n | s | l | fields]; try done; try exact IH.
  destruct (bool_decide (emailOf (JObj fields) = Some email)) eqn:He; [done |].
  apply bool_decide_eq_false in He. intros Hrest%IH.
  destruct (emailOf (JObj fields)) as [e |]; [| done].
  intros [-> | Hin]; [by apply He | by apply Hrest].
Qed.

Lemma taken_app (email : jsstring) (items more : list jsval) :
  taken email items = Resolved false ->
  taken email (items ++ more) = taken email more.
Proof.
  induction items as [| u rest IH]; cbn [taken app]; [done |].
  destruct u as [| b | n | s | l | fields]; try done.
  all: by destruct (bool_decide _).
Qed.

(** An entry with the email stops the search, provided no entry before it
    is null. *)
Lemma taken_found (email : jsstring) (before : list jsval)
    (fields : list (jsstring * jsval)) (after : list jsval) :
  lookupField (lit "email") fields = Some (JStr email) ->
  Forall (fun u => u <> JNull) before ->
  taken email (before ++ JObj fields :: after) = Resolved true.
Proof.
  intros Hemail Hbefore.
  induction Hbefore as [| u rest Hu Hrest IH]; cbn [app taken].
  - rewrite bool_decide_eq_true_2; [done |]. unfold emailOf. by rewrite Hemail.
  - rewrite IH. destruct u as [| b | n | s | l | fs]; try done.
    all: by destruct (bool_decide _).
Qed.

(** A null entry stops the search with a TypeError, provided no entry
    before it has the email. *)
Lemma taken_null (email : jsstring) (before after : list jsval) :
  Forall (fun u => emailOf u <> Some email) before ->
  taken email (before ++ JNull :: after)
  = Rejected (typeError (PropertyOfNull (lit "email"))).
Proof.
  intros Hbefore.
  induction Hbefore as [| u rest Hu Hrest IH]; cbn [app taken]; [done |].
  rewrite IH. rewrite bool_decide_eq_false_2 by done.
  by destruct u.
Qed.

(** The outcome of the effect, by what is stored under ["current_user"]. *)
Lemma useEffect_run (a : Auth) (stored : option jsstring) :
  localStorage a !! CURRENT_USER_KEY = stored ->
  AuthProvider_useEffect a
  = match stored with
    | Some ((_ :: _) as text) =>
        match JSON_parse text with
        | Resolved parsed =>
            ({| user := parsed; loading := false; localStorage := localStorage a;
                storageCalls := storageCalls a ++ [GetItem CURRENT_USER_KEY] |},
             Resolved tt)
        | Rejected error =>
            ({| user := user a; loading := loading a;
                localStorage := localStorage a;
                storageCalls := storageCalls a ++ [GetItem CURRENT_USER_KEY] |},
             Rejected error)
        end
    | _ =>
        ({| user := user a; loading := false; localStorage := localStorage a;
            storageCalls := storageCalls a ++ [GetItem CURRENT_USER_KEY] |},
         Resolved tt)
    end.
Proof.
  intros <-.
  unfold AuthProvider_useEffect, bind, localStorage_getItem, lift, ret,
    setUser, setLoading.
  destruct (localStorage a !! CURRENT_USER_KEY) as [[| c t] |]; try done.
  by destruct (JSON_parse (c :: t)).
Qed.
End Register.

(** C7.  When [register] returns normally, the text it has stored under
    ["fairgrade_users"] is the array of the users read from the storage
    followed by the object [{id, name, email, password}] whose password is
    the argument as it was passed, and the text it has stored under
    ["current_user"], like the current user, is the object
    [{id, name, email}], which has no password field. *)
Theorem register_stores_password `{Engine}
    (random name email password : jsstring) (a a' : Auth) :
  register random name email password a = (a', Resolved tt) ->
  exists items,
    snd (getStoredUsers a) = Resolved (JArr items)
    /\ let uid := JStr (lit "user-" ++ substr random 2 9) in
       let userData :=
         JObj [(lit "id", uid); (lit "name", JStr name);
               (lit "email", JStr email)] in
       localStorage a' !! lit "fairgrade_users"
       = Some (JSON_stringify
                 (JArr (items ++ [JObj [(lit "id", uid);
                                        (lit "name", JStr name);
                                        (lit "email", JStr email);
                                        (lit "password", JStr password)]])))
       /\ localStorage a' !! lit "current_user" = Some (JSON_stringify userData)
       /\ user a' = userData
       /\ getProp (W := Auth) userData (lit "password") a' = (a', Resolved None).
Proof.
  rewrite register_run.
  destruct (snd (getStoredUsers a)) as [users | e]; [| intros ?; discriminate].
  destruct users as [| | | | items |]; try (intros ?; discriminate).
  destruct (taken email items) as [[] | e]; try (intros ?; discriminate).
  unfold registerWrites.
  destruct (quotaExceeded (localStorage a) USERS_STORAGE_KEY _);
    [intros ?; discriminate |].
  destruct (quotaExceeded (<[USERS_STORAGE_KEY := _]> (localStorage a))
              CURRENT_USER_KEY _); [intros ?; discriminate |].
  intros [= <-]. exists items. split; [done |].
  unfold registered. cbn [localStorage user]. repeat split.
  - rewrite lookup_insert_ne by (by vm_compute). apply lookup_insert_eq.
  - apply lookup_insert_eq.
Qed.

(** On an empty storage, the registration of Al stores his password as
    he typed it. *)
Lemma register_stores_password_witness :
  exists items,
    snd (getStoredUsers (H := miniEngine) freshAuth) = Resolved (JArr items)
    /\ localStorage authWithAl !! lit "fairgrade_users"
       = Some (mini_stringify
                 (JArr (items ++ [JObj [(lit "id", JStr (lit "user-4fzyo82mv"));
                                        (lit "name", JStr (lit "Al"));
                                        (lit "email", JStr (lit "al@example.org"));
                                        (lit "password", JStr (lit "hunter2"))]]))).
Proof.
  destruct (register_stores_password (H := miniEngine) (lit "0.4fzyo82mvyr")
              (lit "Al") (lit "al@example.org") (lit "hunter2")
              freshAuth authWithAl) as (items & Hg & Hu & _).
  - vm_compute. reflexivity.
  - exists items. split; [exact Hg | exact Hu].
Defined.

(** C10, as stated, fails when a null entry precedes the user that has the
    email: on the stored array [[null, {email}]] the callback of [some]
    reads [email] on null first, and [register] throws the TypeError of
    that read, not "Email already registered". *)
Lemma register_null_entry_throws_TypeError :
  let items := [JNull; JObj [(lit "email", JStr (lit "al@example.org"))]] in
  let a := {| user := JNull; loading := false;
              localStorage := {[ lit "fairgrade_users" := mini_stringify (JArr items) ]};
              storageCalls := [] |} in
  let thrown := snd (register (H := miniEngine) (lit "0.8k2jd01xq") (lit "Alfred")
                       (lit "al@example.org") (lit "other") a) in
  mini_parse (mini_stringify (JArr items)) = Resolved (JArr items)
  /\ Exists (fun u => emailOf u = Some (lit "al@example.org")) items
  /\ thrown
     = Rejected (ErrorObject TypeError
                   (lit "Cannot read properties of null (reading 'email')"))
  /\ thrown <> Rejected (ErrorObject PlainError (lit "Email already registered")).
Proof.
  cbv zeta. split; [vm_compute; reflexivity |].
  split; [right; left; vm_compute; reflexivity |].
  split; [vm_compute; reflexivity | vm_compute; discriminate].
Qed.

(** C10, amended.  When the text stored under ["fairgrade_users"] is an
    array one of whose entries has the email passed to [register], and no
    entry before that one is null, [register] throws the Error
    "Email already registered".  When a null entry comes first, before any
    entry that has the email, it throws the TypeError of the read of
    [email] on null.  In both cases its only call on [localStorage] is the
    read of ["fairgrade_users"]: the storage (the users array and
    ["current_user"] with it) and the current user are what they were, and
    [loading] is false. *)
Theorem register_duplicate_email `{Engine}
    (random name email password : jsstring) (a : Auth)
    (text : jsstring) (items : list jsval) :
  localStorage a !! lit "fairgrade_users" = Some text ->
  text <> [] ->
  JSON_parse text = Resolved (JArr items) ->
  let unchanged :=
    {| user := user a; loading := false; localStorage := localStorage a;
       storageCalls := storageCalls a ++ [GetItem (lit "fairgrade_users")] |} in
  (forall before fields after,
     items = before ++ JObj fields :: after ->
     lookupField (lit "email") fields = Some (JStr email) ->
     Forall (fun u => u <> JNull) before ->
     register random name email password a
     = (unchanged,
        Rejected (ErrorObject PlainError (lit "Email already registered"))))
  /\ (forall before after,
        items = before ++ JNull :: after ->
        Forall (fun u => emailOf u <> Some email) before ->
        register random name email password a
        = (unchanged, Rejected (typeError (PropertyOfNull (lit "email"))))).
Proof.
  intros Hstored Hne Hparse unchanged.
  assert (snd (getStoredUsers a) = Resolved (JArr items)) as Hread.
  { unfold getStoredUsers, bind, localStorage_getItem, lift. cbn [snd].
    change USERS_STORAGE_KEY with (lit "fairgrade_users"). rewrite Hstored.
    destruct text as [| c t]; [done |]. exact Hparse. }
  split.
  - intros before fields after -> Hemail Hbefore.
    by rewrite register_run, Hread, (taken_found _ _ _ _ Hemail Hbefore).
  - intros before after -> Hbefore.
    by rewrite register_run, Hread, (taken_null _ _ _ Hbefore).
Qed.

(** A second registration under the email of Al is refused and stores
    nothing. *)
Lemma register_duplicate_email_witness :
  register (H := miniEngine) (lit "0.8k2jd01xq") (lit "Alfred")
    (lit "al@example.org") (lit "other") authWithAl
  = ({| user := user authWithAl; loading := false;
        localStorage := localStorage authWithAl;
        storageCalls := storageCalls authWithAl
                        ++ [GetItem (lit "fairgrade_users")] |},
     Rejected (ErrorObject PlainError (lit "Email already registered"))).
Proof.
  pose (al := [(lit "id", JStr (lit "user-4fzyo82mv"));
               (lit "name", JStr (lit "Al"));
               (lit "email", JStr (lit "al@example.org"));
               (lit "password", JStr (lit "hunter2"))]).
  refine (proj1 (register_duplicate_email (H := miniEngine) (lit "0.8k2jd01xq")
                   (lit "Alfred") (lit "al@example.org") (lit "other") authWithAl
                   (mini_stringify (JArr [JObj al])) [JObj al] _ _ _)
            [] al [] eq_refl _ _).
  - vm_compute. reflexivity.
  - vm_compute. discriminate.
  - vm_compute. reflexivity.
  - vm_compute. reflexivity.
  - constructor.
Defined.

(* --------------------------------------------------------------------- *)
(** ** The grading page                                                   *)
(* --------------------------------------------------------------------- *)

(** C5.  [handleSubmit] returns normally.  When a validation fails, all it
    does after [preventDefault] is to show one destructive toast, whose
    title names the first missing field (subject, student files, rubric):
    [isSubmitting] is not set and the router is not called.  When the three
    validations pass it sets [isSubmitting], waits, shows "Grading started"
    and pushes the results route, then clears [isSubmitting]. *)
Theorem handleSubmit_validates (clock : Z) (p : Page) :
  snd (handleSubmit clock p) = Resolved tt
  /\ exists new,
       calls (fst (handleSubmit clock p)) = calls p ++ new
       /\ if subjectSelected p && filesUploaded p && rubricChosen p
          then new = [PreventDefault; SetIsSubmitting true; Sleep 2000;
                      ShowToast gradingStarted;
                      RouterPush (lit "/grading/results/session-" ++ decimal clock);
                      SetIsSubmitting false]
               /\ isSubmitting (fst (handleSubmit clock p)) = false
          else exists t,
               new = [PreventDefault; ShowToast t]
               /\ variant t = Destructive
               /\ title t =
                    (if negb (subjectSelected p) then lit "Subject required"
                     else if negb (filesUploaded p)
                          then lit "Student files required"
                          else lit "Rubric required")
               /\ isSubmitting (fst (handleSubmit clock p)) = isSubmitting p.
Proof.
  unfold handleSubmit, subjectSelected, filesUploaded, rubricChosen.
  unfold toast. unfold bind, tryCatchFinally, call, setIsSubmitting.
  cbn [calls fst snd isSubmitting subject studentFiles rubricFile
       useTemplateRubric].
  destruct (noSubject (subject p)) eqn:Hs; cbn [negb andb fst snd calls].
  { split; [done |]. eexists. split; [by rewrite <- app_assoc |].
    eexists. by repeat split. }
  destruct (length (studentFiles p) =? 0)%nat eqn:Hf;
    cbn [negb andb fst snd calls].
  { split; [done |]. eexists. split; [by rewrite <- app_assoc |].
    eexists. by repeat split. }
  destruct (isNull (rubricFile p)) eqn:Hr, (useTemplateRubric p) eqn:Hu;
    cbn [negb andb orb fst snd calls isSubmitting].
  2: { split; [done |]. eexists. split; [by rewrite <- app_assoc |].
       eexists. by repeat split. }
  all: split; [done |]; eexists; split; [| by split];
    by rewrite <- !app_assoc.
Qed.


(* --------------------------------------------------------------------- *)
(** ** The grading library: the loop over the files                       *)
(* --------------------------------------------------------------------- *)

Lemma push_loop {A B} (g : nat -> A -> B) (l : list A) (acc : list B) :
  fold_left (fun results x => results ++ [g (length results) x]) l acc
  = acc ++ imap (fun i => g (length acc + i)) l.
Proof.
  revert acc. induction l as [| x l IH]; intros acc; simpl.
  - by rewrite app_nil_r.
  - rewrite IH, <- app_assoc. simpl. rewrite Nat.add_0_r. do 2 f_equal.
    apply imap_ext. intros i y _. simpl. rewrite length_app. simpl.
    f_equal. lia.
Qed.

(** The loop pushes one result per file, in the order of the files. *)
Lemma processStudentAnswers_imap env studentFiles rubricText :
  processStudentAnswers env studentFiles rubricText
  = imap (gradeFile env (parseRubric rubricText)) studentFiles.
Proof. unfold processStudentAnswers. by rewrite push_loop. Qed.

Lemma Forall_imap {A B} (P : B -> Prop) (f : nat -> A -> B) (l : list A) :
  (forall i x, l !! i = Some x -> P (f i x)) -> Forall P (imap f l).
Proof.
  revert f. induction l as [| x l IH]; intros f Hf; simpl; constructor.
  - by apply (Hf 0).
  - apply IH. intros i y Hy. by apply (Hf (S i)).
Qed.

(** The sums, the quotient of NaN and the rounding over no criterion. *)
Lemma totalOf_nil : totalOf [] = NaN.
Proof. reflexivity. Qed.

(** C9.  When [parseRubric] finds no criterion in the rubric text,
    [processStudentAnswers] still returns one result per file, each with
    an empty list of criteria and with the total NaN: the quotient of the
    two empty sums, 0 / 0, is not guarded (and is NaN whether it is
    multiplied by 100 before or after the division). *)
Theorem empty_rubric_total_is_NaN (env : Env) (studentFiles : list File)
    (rubricText : jsstring) :
  parseRubric rubricText = [] ->
  length (processStudentAnswers env studentFiles rubricText)
  = length studentFiles
  /\ Forall (fun r => criteria r = []
                      /\ score r = Math_round (num_mul (num_div zero zero)
                                                       (number_of_Z 100))
                      /\ score r = Math_round (num_div (num_mul (number_of_Z 100)
                                                                zero) zero)
                      /\ score r = NaN)
            (processStudentAnswers env studentFiles rubricText).
Proof.
  intros Hnone. rewrite processStudentAnswers_imap, Hnone.
  split; [apply length_imap |].
  apply Forall_imap. intros i file _. by repeat split.
Qed.

(** A rubric in prose, without any percentage: two files, two totals
    NaN. *)
Lemma empty_rubric_total_is_NaN_witness :
  parseRubric (lit "to be graded on content and on style") = []
  /\ length (processStudentAnswers (answering (lit "SCORE: 23")) [essay; essay]
               (lit "to be graded on content and on style")) = 2
  /\ Forall (fun r => criteria r = []
                      /\ score r = Math_round (num_mul (num_div zero zero)
                                                       (number_of_Z 100))
                      /\ score r = Math_round (num_div (num_mul (number_of_Z 100)
                                                                zero) zero)
                      /\ score r = NaN)
            (processStudentAnswers (answering (lit "SCORE: 23")) [essay; essay]
               (lit "to be graded on content and on style")).
Proof.
  split; [vm_compute; reflexivity |].
  apply (empty_rubric_total_is_NaN (answering (lit "SCORE: 23"))
           [essay; essay] (lit "to be graded on content and on style")).
  vm_compute. reflexivity.
Defined.

(** C3, as stated, fails: for one criterion of weight 40 graded 23, the
    program computes [Math.round(23 / 40 * 100)], where 23 / 40 is the
    binary64 value just below 0.575 and its product by 100 is
    57.49999999999999, rounded 57; the percentage 100 * 23 / 40 is 57.5,
    rounded 58. *)
Lemma total_is_not_the_rounded_percentage :
  exists r,
    processStudentAnswers (answering (lit "SCORE: 23")) [essay]
      (lit "Content (40%)") !! 0 = Some r
    /\ criteria r <> []
    /\ List.map cr_score (criteria r) = [number_of_Z 23]
    /\ List.map cr_maxScore (criteria r) = [number_of_Z 40]
    /\ score r = number_of_Z 57
    /\ claimedTotalOf (criteria r) = number_of_Z 58
    /\ ((2 * (100 * 23) + 40) / (2 * 40) = 58)%Z
    /\ score r <> claimedTotalOf (criteria r).
Proof.
  eexists. split; [vm_compute; reflexivity |].
  repeat split; try (vm_compute; congruence).
Qed.

(** C3, amended.  For every file whose criteria results are not empty, the
    total is [Math.round(sum of scores / sum of maxScores * 100)] in
    binary64 arithmetic, the quotient being rounded before it is
    multiplied by 100; the maxScore of each criterion result is the weight
    parsed from the rubric. *)
Theorem total_is_rounded_quotient_times_100 (env : Env)
    (studentFiles : list File) (rubricText : jsstring) (i : nat)
    (r : GradingResult) :
  processStudentAnswers env studentFiles rubricText !! i = Some r ->
  criteria r <> [] ->
  score r
  = Math_round (num_mul (num_div (sumOf cr_score (criteria r))
                                 (sumOf cr_maxScore (criteria r)))
                        (number_of_Z 100))
  /\ List.map cr_maxScore (criteria r)
     = List.map weight (parseRubric rubricText).
Proof.
  rewrite processStudentAnswers_imap, list_lookup_imap.
  destruct (studentFiles !! i) as [file |]; simpl; [| done].
  intros [= <-] _. split; [done |]. simpl.
  generalize (api env i). generalize (parseRubric rubricText).
  intros l. induction l as [| c l IH]; intros f; simpl; [done |].
  f_equal. apply (IH (fun j => f (S j))).
Qed.

(** One criterion of weight 40, graded 23. *)
Lemma total_is_rounded_quotient_times_100_witness :
  exists r,
    processStudentAnswers (answering (lit "SCORE: 23")) [essay]
      (lit "Content (40%)") !! 0 = Some r
    /\ score r
       = Math_round (num_mul (num_div (sumOf cr_score (criteria r))
                                      (sumOf cr_maxScore (criteria r)))
                             (number_of_Z 100)).
Proof.
  eexists. split; [vm_compute; reflexivity |].
  eapply (total_is_rounded_quotient_times_100 (answering (lit "SCORE: 23"))
            [essay] (lit "Content (40%)") 0).
  - vm_compute. reflexivity.
  - vm_compute. discriminate.
Defined.

(* --------------------------------------------------------------------- *)
(** ** Strings and the matcher                                            *)
(* --------------------------------------------------------------------- *)

Lemma takeWhile_dropWhile p s : takeWhile p s ++ dropWhile p s = s.
Proof.
  induction s as [| c s IH]; simpl; [done |].
  destruct (p c); simpl; [by rewrite IH | done].
Qed.

Lemma forallb_takeWhile p s : forallb p (takeWhile p s) = true.
Proof.
  induction s as [| c s IH]; simpl; [done |].
  destruct (p c) eqn:Hc; simpl; [by rewrite Hc | done].
Qed.

Lemma dropWhile_stops p s : stopsAt p (dropWhile p s).
Proof.
  induction s as [| c s IH]; simpl; [done |].
  destruct (p c) eqn:Hc; simpl; [exact IH | exact Hc].
Qed.

Lemma takeWhile_app p a b :
  forallb p a = true -> stopsAt p b -> takeWhile p (a ++ b) = a.
Proof.
  intros Ha Hb. induction a as [| c a IH]; simpl in *.
  - destruct b as [| c b]; simpl in *; [done | by rewrite Hb].
  - apply andb_true_iff in Ha as [-> Ha]. by rewrite IH.
Qed.

Lemma dropWhile_app p a b :
  forallb p a = true -> stopsAt p b -> dropWhile p (a ++ b) = b.
Proof.
  intros Ha Hb. induction a as [| c a IH]; simpl in *.
  - destruct b as [| c b]; simpl in *; [done | by rewrite Hb].
  - apply andb_true_iff in Ha as [-> Ha]. by apply IH.
Qed.

Lemma dropWhile_id p s : stopsAt p s -> dropWhile p s = s.
Proof. destruct s as [| c s]; simpl; [done | by intros ->]. Qed.

Lemma consumed_app (a b : jsstring) : consumed (a ++ b) b = a.
Proof.
  unfold consumed. rewrite length_app.
  replace (length a + length b - length b) with (length a) by lia.
  by rewrite take_app_length.
Qed.

Lemma consumed_nil (s : jsstring) : consumed s [] = s.
Proof. rewrite <- (app_nil_r s) at 1. apply consumed_app. Qed.

Lemma consumed_dropWhile p s : consumed s (dropWhile p s) = takeWhile p s.
Proof.
  rewrite <- (takeWhile_dropWhile p s) at 1. apply consumed_app.
Qed.

Section MatcherLemmas.
Context {A : Type}.
Implicit Types (k : jsstring -> option A) (p : char -> bool).

(** A greedy quantifier whose continuation refuses every input that
    starts with a character of the class takes the whole run or fails. *)
Lemma quantGreedy_run p min s k :
  (forall c t, p c = true -> k (c :: t) = None) ->
  quantGreedy p min s k
  = if (min <=? length (takeWhile p s))%nat then k (dropWhile p s) else None.
Proof.
  intros Hk. revert min. induction s as [| c s IH]; intros min; simpl.
  - by destruct min.
  - destruct (p c) eqn:Hc; simpl.
    + rewrite IH. destruct min as [| min]; simpl.
      * destruct (k (dropWhile p s)); [done | by apply Hk].
      * by destruct (min <=? length (takeWhile p s))%nat, (k (dropWhile p s)).
    + by destruct min.
Qed.

(** A greedy quantifier whose continuation accepts what follows the whole
    run takes the whole run. *)
Lemma quantGreedy_whole p min s k a :
  (min <= length (takeWhile p s))%nat ->
  k (dropWhile p s) = Some a ->
  quantGreedy p min s k = Some a.
Proof.
  revert min. induction s as [| c s IH]; intros min Hmin Hk; simpl in *.
  - destruct min; [done | lia].
  - destruct (p c) eqn:Hc; simpl in *.
    + rewrite (IH (Nat.pred min)); [done | lia | done].
    + destruct min; [done | lia].
Qed.

Lemma quantGreedy_short p min s k :
  (length (takeWhile p s) < min)%nat -> quantGreedy p min s k = None.
Proof.
  revert min. induction s as [| c s IH]; intros min Hmin; simpl in *.
  - destruct min; [lia | done].
  - destruct (p c) eqn:Hc; simpl in *.
    + rewrite (IH (Nat.pred min)) by lia. destruct min; [lia | done].
    + destruct min; [lia | done].
Qed.

(** A lazy quantifier stops at the first place where the continuation
    accepts. *)
Lemma quantLazy_first p pre s k a :
  forallb p pre = true ->
  (forall u v, pre = u ++ v -> v <> [] -> k (v ++ s) = None) ->
  k s = Some a ->
  quantLazy p 0 (pre ++ s) k = Some a.
Proof.
  intros Hp Hnone Hk. induction pre as [| c pre IH]; simpl in *.
  - destruct s; simpl; by rewrite Hk.
  - apply andb_true_iff in Hp as [Hc Hp].
    pose proof (Hnone [] (c :: pre) eq_refl ltac:(done)) as H1.
    simpl in H1. rewrite H1, Hc.
    apply IH; [done |]. intros u v -> Hv. by apply (Hnone (c :: u) v).
Qed.

Lemma quantLazy_none p s k :
  (forall u v, s = u ++ v -> forallb p u = true -> k v = None) ->
  quantLazy p 0 s k = None.
Proof.
  induction s as [| c s IH]; intros Hk; simpl.
  - by rewrite (Hk [] []).
  - rewrite (Hk [] (c :: s)) by done.
    destruct (p c) eqn:Hc; [| done].
    apply IH. intros u v -> Hu. apply (Hk (c :: u) v); [done |].
    simpl. by rewrite Hc.
Qed.

Lemma matcher_litSeq i kw s cs (k : jsstring -> captures -> option A) :
  matcher i (litSeq kw) s cs k
  = match startsWith i kw s with
    | Some rest => k rest cs
    | None => None
    end.
Proof.
  revert s. induction kw as [| c kw IH]; intros s; simpl; [done |].
  destruct s as [| x s]; [done |]. destruct (sameChar i c x); [apply IH | done].
Qed.
End MatcherLemmas.

(** The search tries the start positions from the left. *)
Lemma execFrom_first re i pre s rest cs :
  (forall u v, pre = u ++ v -> v <> [] ->
     matcher (ignoreCase re) (source re) (v ++ s) []
       (fun s' cs' => Some (s', cs')) = None) ->
  matcher (ignoreCase re) (source re) s [] (fun s' cs' => Some (s', cs'))
  = Some (rest, cs) ->
  execFrom re i (pre ++ s)
  = Some {| index := i + length pre; whole := consumed s rest; groups := cs |}.
Proof.
  intros Hnone Hs. revert i. induction pre as [| c pre IH]; intros i; simpl.
  - destruct s; simpl in *; rewrite Hs; by rewrite Nat.add_0_r.
  - pose proof (Hnone [] (c :: pre) eq_refl ltac:(done)) as H1.
    simpl in H1. rewrite H1.
    rewrite IH; [do 2 f_equal; lia |].
    intros u v -> Hv. by apply (Hnone (c :: u) v).
Qed.

Lemma execFrom_none re i s :
  (forall u v, s = u ++ v ->
     matcher (ignoreCase re) (source re) v []
       (fun s' cs' => Some (s', cs')) = None) ->
  execFrom re i s = None.
Proof.
  revert i. induction s as [| c s IH]; intros i Hnone; simpl.
  - by rewrite (Hnone [] []).
  - rewrite (Hnone [] (c :: s)) by done.
    apply IH. intros u v ->. by apply (Hnone (c :: u) v).
Qed.

(* --------------------------------------------------------------------- *)
(** ** The file extension                                                 *)
(* --------------------------------------------------------------------- *)

Lemma noneOf_slash_dot c : noneOf [SLASH; DOT] c = notDot c && notSlash c.
Proof.
  unfold noneOf, notDot, notSlash. simpl. by destruct (c =? SLASH)%N, (c =? DOT)%N.
Qed.

(** The pattern at one position: a dot, then a non-empty text without dot
    or slash up to the end. *)
Lemma extension_at (s : jsstring) :
  matcher false (source FILE_EXTENSION) s [] (fun s' cs' => Some (s', cs'))
  = match s with
    | c :: ext =>
        if (c =? DOT)%N && negb (length ext =? 0)%nat
           && forallb (noneOf [SLASH; DOT]) ext
        then Some ([], [])
        else None
    | [] => None
    end.
Proof.
  destruct s as [| c ext]; [done |].
  cbn [matcher source FILE_EXTENSION sameChar ignoreCase].
  rewrite (N.eqb_sym DOT c).
  destruct (c =? DOT)%N; cbn [andb]; [| done].
  rewrite quantGreedy_run; [| by intros ? ? _].
  pose proof (takeWhile_dropWhile (noneOf [SLASH; DOT]) ext) as Hsplit.
  pose proof (forallb_takeWhile (noneOf [SLASH; DOT]) ext) as Hrun.
  destruct (dropWhile (noneOf [SLASH; DOT]) ext) as [| x rest] eqn:Hdrop.
  - rewrite app_nil_r in Hsplit. rewrite Hsplit in *. rewrite Hrun.
    by destruct ext.
  - assert (forallb (noneOf [SLASH; DOT]) ext = false) as ->.
    { rewrite <- Hsplit, forallb_app. simpl.
      pose proof (dropWhile_stops (noneOf [SLASH; DOT]) ext) as Hstop.
      rewrite Hdrop in Hstop. simpl in Hstop. rewrite Hstop.
      by rewrite andb_false_r. }
    rewrite andb_false_r. by destruct (1 <=? _)%nat.
Qed.

Lemma replace_extension_found (base ext : jsstring) :
  ext <> [] -> forallb (noneOf [SLASH; DOT]) ext = true ->
  String_replace (base ++ DOT :: ext) FILE_EXTENSION [] = base.
Proof.
  intros Hne Hext. unfold String_replace, String_match.
  rewrite (execFrom_first FILE_EXTENSION 0 base (DOT :: ext) [] []).
  - cbn [index whole Nat.add]. rewrite consumed_nil, take_app_length.
    rewrite drop_ge; [by rewrite app_nil_r |].
    rewrite length_app. simpl. lia.
  - intros u v -> Hv. rewrite extension_at.
    destruct v as [| c v]; [done |]. simpl.
    assert (forallb (noneOf [SLASH; DOT]) (v ++ DOT :: ext) = false) as ->.
    { rewrite forallb_app. cbn [forallb]. rewrite noneOf_slash_dot.
      unfold notDot. rewrite N.eqb_refl. cbn [negb andb].
      by rewrite andb_false_r. }
    by rewrite andb_false_r.
  - rewrite extension_at. rewrite N.eqb_refl, Hext.
    by destruct ext.
Qed.

Lemma replace_extension_none (name : jsstring) :
  (forall base ext, name = base ++ DOT :: ext -> ext <> [] ->
                    forallb (noneOf [SLASH; DOT]) ext = true -> False) ->
  String_replace name FILE_EXTENSION [] = name.
Proof.
  intros Hnone. unfold String_replace, String_match.
  rewrite execFrom_none; [done |].
  intros u v ->. rewrite extension_at. destruct v as [| c ext]; [done |].
  destruct (c =? DOT)%N eqn:Hc; [| done].
  destruct (length ext =? 0)%nat eqn:Hl; [done |].
  destruct (forallb (noneOf [SLASH; DOT]) ext) eqn:Hf; [| done].
  exfalso. apply N.eqb_eq in Hc as ->.
  apply (Hnone u ext); [done | | done]. by destruct ext.
Qed.

(** The replacement by the pattern is the removal of the final extension. *)
Lemma replace_extension (name : jsstring) :
  String_replace name FILE_EXTENSION [] = withoutExtension name.
Proof.
  unfold withoutExtension.
  pose proof (takeWhile_dropWhile notDot (rev name)) as Hsplit.
  pose proof (forallb_takeWhile notDot (rev name)) as Hext.
  pose proof (dropWhile_stops notDot (rev name)) as Hstop.
  assert (forall base ext, name = base ++ DOT :: ext ->
            forallb (noneOf [SLASH; DOT]) ext = true ->
            takeWhile notDot (rev name) = rev ext
            /\ dropWhile notDot (rev name) = DOT :: rev base) as Hunique.
  { intros base ext -> Hf. rewrite rev_app_distr. simpl. rewrite <- app_assoc.
    simpl.
    assert (forallb notDot (rev ext) = true) as Hr.
    { rewrite forallb_forall in *. intros c Hc%in_rev.
      specialize (Hf c Hc). rewrite noneOf_slash_dot in Hf.
      by apply andb_true_iff in Hf as [-> _]. }
    split; [apply takeWhile_app | apply dropWhile_app]; try done;
      simpl; unfold notDot; by rewrite N.eqb_refl. }
  destruct (takeWhile notDot (rev name)) as [| e ext'] eqn:Htake.
  { apply replace_extension_none. intros base ext Hname Hne Hf.
    destruct (Hunique base ext Hname Hf) as [Ht _].
    apply (f_equal (@length _)) in Ht. rewrite length_rev in Ht.
    destruct ext; [done | simpl in Ht; lia]. }
  destruct (dropWhile notDot (rev name)) as [| d stem] eqn:Hdrop.
  { apply replace_extension_none. intros base ext Hname Hne Hf.
    by destruct (Hunique base ext Hname Hf) as [_ Hd]. }
  simpl in Hstop. unfold notDot in Hstop.
  apply negb_false_iff, N.eqb_eq in Hstop as ->.
  assert (name = rev stem ++ DOT :: rev (e :: ext')) as Hname.
  { rewrite <- (rev_involutive name), <- Hsplit, rev_app_distr.
    simpl. by rewrite <- app_assoc. }
  destruct (forallb notSlash (e :: ext')) eqn:Hslash.
  - rewrite Hname at 1. apply replace_extension_found.
    + simpl. by destruct (rev ext').
    + rewrite forallb_forall in *. intros c Hc%in_rev.
      rewrite noneOf_slash_dot, (Hext c Hc), (Hslash c Hc). done.
  - apply replace_extension_none. intros base ext Hname' Hne Hf.
    destruct (Hunique base ext Hname' Hf) as [Ht _].
    assert (forallb notSlash (e :: ext') = true); [| congruence].
    rewrite Ht. rewrite forallb_forall in *. intros c Hc%in_rev.
    specialize (Hf c Hc). rewrite noneOf_slash_dot in Hf.
    by apply andb_true_iff in Hf as [_ ->].
Qed.

(* --------------------------------------------------------------------- *)
(** ** The results of [processStudentAnswers]                             *)
(* --------------------------------------------------------------------- *)

Lemma lit_inj (s t : string) : lit s = lit t -> s = t.
Proof.
  unfold lit. intros Heq.
  rewrite <- (string_of_list_ascii_of_string s),
          <- (string_of_list_ascii_of_string t).
  f_equal. revert Heq.
  generalize (list_ascii_of_string s) (list_ascii_of_string t).
  intros l. induction l as [| a l IH]; intros [| b m]; simpl; try done.
  intros [= Hab Hlm]. f_equal; [| by apply IH].
  by rewrite <- (ascii_N_embedding a), <- (ascii_N_embedding b), Hab.
Qed.

(** Two clock readings have the same decimal text only when equal. *)
Lemma decimal_inj (z1 z2 : Z) : decimal z1 = decimal z2 -> z1 = z2.
Proof.
  unfold decimal. intros Heq%lit_inj. apply DecimalZ.to_int_inj.
  assert (forall z, NilZero.int_of_string (NilZero.string_of_int (Z.to_int z))
                    = Some (Z.to_int z)) as Hback.
  { intros z. apply NilZero.isi; destruct z; simpl; try done;
      intros [= Hnil]; by apply DecimalPos.Unsigned.to_uint_nonnil in Hnil. }
  pose proof (Hback z1) as H1. rewrite Heq, Hback in H1. by injection H1.
Qed.

Lemma map_imap {A B C} (g : B -> C) (f : nat -> A -> B) (l : list A) :
  List.map g (imap f l) = imap (fun i x => g (f i x)) l.
Proof.
  revert f. induction l as [| x l IH]; intros f; simpl; [done |].
  f_equal. apply IH.
Qed.

Lemma imap_map {A B} (f : A -> B) (l : list A) :
  imap (fun _ x => f x) l = List.map f l.
Proof. induction l as [| x l IH]; simpl; [done |]. f_equal. apply IH. Qed.

(** C4.  [processStudentAnswers] returns one result per file, in the order
    of the files: the names of the results are the names of the files
    without their final extension, the criteria of each result bear the
    names of the rubric's criteria in their order, and the id of the
    result at position [i] is ["student-"], the clock reading, ["-"] and
    nine characters of the random text.  The id is built from the clock
    and the random text alone: it changes with the clock reading, and with
    the nine characters taken from the random text. *)
Theorem processStudentAnswers_results (env : Env) (studentFiles : list File)
    (rubricText : jsstring) :
  let results := processStudentAnswers env studentFiles rubricText in
  length results = length studentFiles
  /\ List.map name results
     = List.map (fun file => withoutExtension (file_name file)) studentFiles
  /\ Forall (fun r => List.map cr_name (criteria r)
                      = List.map criterion_name (parseRubric rubricText))
            results
  /\ List.map id results
     = imap (fun i _ => lit "student-" ++ decimal (now env i) ++ lit "-"
                        ++ substr (random36 env i) 2 9) studentFiles
  /\ (forall clock1 clock2 random,
        studentId clock1 random = studentId clock2 random <-> clock1 = clock2)
  /\ (forall clock random1 random2,
        studentId clock random1 = studentId clock random2
        <-> substr random1 2 9 = substr random2 2 9).
Proof.
  cbv zeta. rewrite processStudentAnswers_imap. repeat split.
  - apply length_imap.
  - rewrite map_imap. cbn [gradeFile name].
    rewrite <- imap_map. apply imap_ext. intros i file _.
    apply replace_extension.
  - apply Forall_imap. intros i file _. cbn [gradeFile criteria].
    rewrite map_imap. cbn [cr_name]. apply imap_map.
  - by rewrite map_imap.
  - unfold studentId. intros Heq%app_inv_head%app_inv_tail.
    by apply decimal_inj.
  - by intros ->.
  - unfold studentId. by intros Heq%app_inv_head%app_inv_head%app_inv_head.
  - unfold studentId. by intros ->.
Qed.

(* --------------------------------------------------------------------- *)
(** ** Integers as Numbers                                                *)
(* --------------------------------------------------------------------- *)

Lemma digits2_pos_bounds (m : positive) :
  (2 ^ (Zpos (digits2_pos m) - 1) <= Zpos m < 2 ^ Zpos (digits2_pos m))%Z.
Proof.
  induction m as [m IH | m IH |]; cbn [digits2_pos].
  3: { simpl. lia. }
  all: rewrite Pos2Z.inj_succ;
    replace (Z.succ (Zpos (digits2_pos m)) - 1)%Z
      with (Zpos (digits2_pos m)) by lia;
    rewrite Z.pow_succ_r by lia;
    replace (Zpos (digits2_pos m))
      with (Z.succ (Zpos (digits2_pos m) - 1)) in IH at 2 by lia;
    replace (Zpos (digits2_pos m))
      with (Z.succ (Zpos (digits2_pos m) - 1)) at 1 2 by lia;
    rewrite !Z.pow_succ_r in * by lia; lia.
Qed.

Lemma iter_xO_value (m k : positive) :
  Zpos (Pos.iter xO m k) = (Zpos m * 2 ^ Zpos k)%Z.
Proof.
  revert m. induction k as [| k IH] using Pos.peano_ind; intros m.
  - simpl. lia.
  - rewrite Pos.iter_succ, Pos2Z.inj_succ, Z.pow_succ_r by lia.
    rewrite Pos2Z.inj_xO, IH. lia.
Qed.

Lemma iter_xO_digits (m k : positive) :
  digits2_pos (Pos.iter xO m k) = (digits2_pos m + k)%positive.
Proof.
  revert m. induction k as [| k IH] using Pos.peano_ind; intros m.
  - simpl. lia.
  - rewrite Pos.iter_succ. simpl. rewrite IH. lia.
Qed.

(** An integer of at most 53 bits is aligned to 53 bits and not rounded. *)
Lemma number_of_Z_small (m : positive) :
  (Zpos (digits2_pos m) <= 53)%Z ->
  exists m' e,
    number_of_Z (Zpos m) = S754_finite false m' e
    /\ (e <= 0)%Z /\ (Zpos m' = Zpos m * 2 ^ (- e))%Z.
Proof.
  intros Hd. unfold number_of_Z, binary_normalize, binary_round.
  unfold fexp, emin, prec64, emax64.
  rewrite Z.add_0_r, Z.max_l by lia.
  unfold shl_align.
  destruct (Zpos (digits2_pos m) - 53 - 0)%Z as [| p | p] eqn:Hp; [| lia |].
  - exists m, 0%Z. split; [| split; [lia | simpl; lia]].
    assert (Zpos (digits2_pos m) = 53)%Z as H53 by lia.
    unfold binary_round_aux, shr_fexp, fexp, emin. simpl Zdigits2.
    rewrite H53. simpl. rewrite H53. simpl. reflexivity.
  - exists (Pos.iter xO m p), (Zpos (digits2_pos m) - 53)%Z.
    split; [| split; [lia |]].
    + unfold binary_round_aux, shr_fexp, fexp, emin. simpl Zdigits2.
      rewrite iter_xO_digits.
      replace (Z.pos (digits2_pos m + p) + (Z.pos (digits2_pos m) - 53) - 53)%Z
        with (Z.pos (digits2_pos m) - 53)%Z by lia.
      rewrite Z.max_l by lia. rewrite Z.sub_diag. simpl shr.
      cbn [shr_m loc_of_shr_record shr_record_of_loc round_nearest_even].
      simpl Zdigits2. rewrite iter_xO_digits.
      replace (Z.pos (digits2_pos m + p) + (Z.pos (digits2_pos m) - 53) - 53)%Z
        with (Z.pos (digits2_pos m) - 53)%Z by lia.
      rewrite Z.max_l by lia. rewrite Z.sub_diag. simpl shr. cbn [shr_m].
      destruct (Z.leb_spec (Z.pos (digits2_pos m) - 53) (1024 - 53));
        [done | lia].
    + rewrite iter_xO_value. do 2 f_equal. lia.
Qed.

(** Below 2^53 the Number of an integer is that integer. *)
Lemma number_of_Z_exact (z : Z) :
  (0 <= z < 2 ^ 53)%Z -> integerValue (number_of_Z z) = Some z.
Proof.
  intros [H0 H53]. destruct z as [| m | m]; [done | | lia].
  assert (Zpos (digits2_pos m) <= 53)%Z as Hd.
  { pose proof (digits2_pos_bounds m) as [Hlow _].
    destruct (Z.le_gt_cases (Zpos (digits2_pos m)) 53) as [| Hgt]; [done |].
    exfalso.
    assert (2 ^ 53 <= 2 ^ (Zpos (digits2_pos m) - 1))%Z
      by (apply Z.pow_le_mono_r; lia).
    lia. }
  destruct (number_of_Z_small m Hd) as (m' & e & -> & He & Hm').
  unfold integerValue.
  destruct (Z.leb_spec 0 e) as [Hpos | Hneg].
  - assert (e = 0)%Z as -> by lia. simpl in *. f_equal. lia.
  - rewrite Hm', Z.mod_mul by lia. simpl. f_equal.
    apply Z.div_mul. lia.
Qed.

Lemma decimalValue_nonneg (ds : jsstring) :
  forallb isDigit ds = true -> (0 <= decimalValue ds)%Z.
Proof.
  unfold decimalValue.
  assert (forall acc, (0 <= acc)%Z -> forallb isDigit ds = true ->
            (0 <= fold_left (fun a c => 10 * a + digitValue c) ds acc)%Z)
    as Hgen; [| by apply Hgen].
  induction ds as [| d ds IH]; intros acc Hacc Hds; simpl in *; [done |].
  apply andb_true_iff in Hds as [Hd Hds]. apply IH; [| done].
  unfold isDigit in Hd. apply andb_true_iff in Hd as [Hd%N.leb_le _].
  unfold digitValue. lia.
Qed.

(* --------------------------------------------------------------------- *)
(** ** The rubric line                                                    *)
(* --------------------------------------------------------------------- *)

Lemma percentAt_Some s ds rest :
  percentAt s = Some (ds, rest) ->
  s = percentage ds ++ rest /\ ds <> [] /\ forallb isDigit ds = true.
Proof.
  destruct s as [| c s1]; simpl; [done |].
  destruct (c =? LPAREN)%N eqn:Hc; [| done]. apply N.eqb_eq in Hc as ->.
  pose proof (takeWhile_dropWhile isDigit s1) as Hsplit.
  pose proof (forallb_takeWhile isDigit s1) as Hrun.
  destruct (takeWhile isDigit s1) as [| d ds'] eqn:Ht; [done |].
  destruct (dropWhile isDigit s1) as [| p [| r rest']]; try done.
  destruct (p =? PERCENT)%N eqn:Hp; [| done].
  destruct (r =? RPAREN)%N eqn:Hr; [| done].
  apply N.eqb_eq in Hp as ->. apply N.eqb_eq in Hr as ->.
  intros [= <- <-]. repeat split; [| done | done].
  unfold percentage. rewrite <- Hsplit. simpl. by rewrite <- app_assoc.
Qed.

Lemma percentAt_percentage ds rest :
  ds <> [] -> forallb isDigit ds = true ->
  percentAt (percentage ds ++ rest) = Some (ds, rest).
Proof.
  intros Hne Hds. unfold percentage, percentAt. simpl.
  rewrite <- app_assoc. simpl.
  rewrite takeWhile_app, dropWhile_app by done.
  destruct ds; [done |]. done.
Qed.

Lemma findPercentage_first s pre ds rest :
  findPercentage s = Some (pre, ds, rest) -> firstPercentage s pre ds rest.
Proof.
  revert pre. induction s as [| c s IH]; intros pre; cbn [findPercentage].
  - destruct (percentAt []) as [[ds0 rest0] |] eqn:Hat; [| done].
    intros [= <- <- <-]. apply percentAt_Some in Hat as (Hs & Hne & Hds).
    repeat split; try done; intros; simpl; lia.
  - destruct (percentAt (c :: s)) as [[ds0 rest0] |] eqn:Hat.
    + intros [= <- <- <-]. apply percentAt_Some in Hat as (Hs & Hne & Hds).
      repeat split; try done; intros; simpl; lia.
    + destruct (findPercentage s) as [[[pre0 ds0] rest0] |]; [| done].
      intros [= <- <- <-].
      destruct (IH pre0 eq_refl) as (Hs & Hne & Hds & Hmin).
      repeat split; try done; [simpl; by rewrite Hs |].
      intros pre' ds' rest' Hline Hne' Hds'.
      destruct pre' as [| c' pre'].
      * change (c :: s = percentage ds' ++ rest') in Hline.
        rewrite Hline in Hat. by rewrite percentAt_percentage in Hat.
      * simpl in Hline. injection Hline as _ Hline.
        specialize (Hmin pre' ds' rest' Hline Hne' Hds'). simpl. lia.
Qed.

Lemma findPercentage_none s : findPercentage s = None -> noPercentage s.
Proof.
  induction s as [| c s IH]; cbn [findPercentage].
  - destruct (percentAt []) as [[ds0 rest0] |] eqn:Hat; [done |].
    intros _ pre ds rest Hline Hne Hds. destruct pre; [| done].
    change ([] = percentage ds ++ rest) in Hline. rewrite Hline in Hat.
    by rewrite percentAt_percentage in Hat.
  - destruct (percentAt (c :: s)) as [[ds0 rest0] |] eqn:Hat; [done |].
    destruct (findPercentage s) as [[[pre0 ds0] rest0] |] eqn:Hfind; [done |].
    intros _ pre ds rest Hline Hne Hds. destruct pre as [| c' pre].
    + change (c :: s = percentage ds ++ rest) in Hline.
      rewrite Hline in Hat. by rewrite percentAt_percentage in Hat.
    + simpl in Hline. injection Hline as _ Hline.
      by apply (IH eq_refl pre ds rest).
Qed.

(** A line has a first parenthesised percentage, or it has none. *)
Lemma percentage_or_none (line : jsstring) :
  noPercentage line
  \/ exists pre ds rest, firstPercentage line pre ds rest.
Proof.
  destruct (findPercentage line) as [[[pre ds] rest] |] eqn:Hfind.
  - right. exists pre, ds, rest. by apply findPercentage_first.
  - left. by apply findPercentage_none.
Qed.

Lemma quantLazy_ext {A} p min s (k k' : jsstring -> option A) :
  (forall s', k s' = k' s') -> quantLazy p min s k = quantLazy p min s k'.
Proof.
  intros Hk. revert min. induction s as [| c s IH]; intros [| min]; simpl;
    rewrite <- ?Hk; try done.
  - destruct (k (c :: s)); [done |]. destruct (p c); [apply IH | done].
  - destruct (p c); [apply IH | done].
Qed.

(** The rest of the pattern after its first group: white space, then a
    parenthesised percentage. *)
Lemma rubric_tail_at {A} (s : jsstring) (cs : captures)
    (k : jsstring -> captures -> option A) :
  matcher false
    (Cat (Quant true 0 isWhiteSpace)
      (Cat (Lit LPAREN)
      (Cat (Group 2 (Quant true 1 isDigit))
      (Cat (Lit PERCENT) (Lit RPAREN))))) s cs k
  = match percentAt (trimStart s) with
    | Some (ds, rest) => k rest ((2, ds) :: cs)
    | None => None
    end.
Proof.
  cbn [matcher sameChar].
  rewrite quantGreedy_run.
  2: { intros c t Hc.
       destruct (LPAREN =? c)%N eqn:Hp; [| done].
       apply N.eqb_eq in Hp as <-. done. }
  cbn [Nat.leb]. unfold trimStart.
  destruct (dropWhile isWhiteSpace s) as [| c s1]; [done |].
  unfold percentAt. rewrite (N.eqb_sym LPAREN c).
  destruct (c =? LPAREN)%N; [| done].
  rewrite quantGreedy_run.
  2: { intros d t Hd.
       destruct (PERCENT =? d)%N eqn:Hp; [| done].
       apply N.eqb_eq in Hp as <-. done. }
  rewrite consumed_dropWhile.
  destruct (takeWhile isDigit s1) as [| d ds]; [done |].
  cbn [length Nat.leb].
  destruct (dropWhile isDigit s1) as [| p [| r rest]].
  - done.
  - by destruct (PERCENT =? p)%N.
  - rewrite (N.eqb_sym PERCENT p), (N.eqb_sym RPAREN r).
    by destruct (p =? PERCENT)%N, (r =? RPAREN)%N.
Qed.

(** The whole pattern at one position. *)
Lemma rubric_at (s : jsstring) :
  matcher false (source RUBRIC_LINE) s [] (fun s' cs' => Some (s', cs'))
  = quantLazy isDot 0 s
      (fun s1 =>
         match percentAt (trimStart s1) with
         | Some (ds, rest) => Some (rest, [(2, ds); (1, consumed s s1)])
         | None => None
         end).
Proof.
  cbn [source RUBRIC_LINE]. cbn [matcher].
  apply quantLazy_ext. intros s1.
  exact (rubric_tail_at s1 [(1, consumed s s1)] (fun s' cs' => Some (s', cs'))).
Qed.

(** The last character of a non-empty suffix is the last character of the
    whole. *)
Lemma suffix_last {A} (l u z l' : list A) (c : A) :
  l = u ++ z -> z <> [] -> l = l' ++ [c] -> exists z', z = z' ++ [c].
Proof.
  intros -> Hz Hl. destruct z as [| x z _] using rev_ind; [done |].
  rewrite app_assoc in Hl. apply app_inj_tail in Hl as [_ ->]. by exists z.
Qed.

(** A text without the run of [p] at its end either is empty or ends with
    a character that is not in [p]. *)
Lemma rev_dropWhile_last p (s : jsstring) :
  rev (dropWhile p (rev s)) = []
  \/ exists l c, rev (dropWhile p (rev s)) = l ++ [c] /\ p c = false.
Proof.
  pose proof (dropWhile_stops p (rev s)) as Hstop.
  destruct (dropWhile p (rev s)) as [| c d]; [by left |].
  right. exists (rev d), c. split; [reflexivity | exact Hstop].
Qed.

Lemma rev_split p (s : jsstring) :
  s = rev (dropWhile p (rev s)) ++ rev (takeWhile p (rev s)).
Proof.
  rewrite <- rev_app_distr, takeWhile_dropWhile. by rewrite rev_involutive.
Qed.

Lemma forallb_rev {A} (p : A -> bool) (l : list A) :
  forallb p (rev l) = forallb p l.
Proof.
  induction l as [| x l IH]; simpl; [done |].
  rewrite forallb_app, IH. simpl. by rewrite andb_true_r, andb_comm.
Qed.

(** Skipping the run of [p] at the head of a text whose part [z ++ [c]]
    ends outside [p] leaves a non-empty suffix of that part. *)
Lemma dropWhile_suffix p (z : jsstring) (c : char) (r : jsstring) :
  p c = false ->
  exists a b, z ++ [c] = a ++ b /\ b <> []
              /\ dropWhile p ((z ++ [c]) ++ r) = b ++ r.
Proof.
  intros Hc. induction z as [| x z IH]; simpl.
  - exists [], [c]. simpl. by rewrite Hc.
  - destruct (p x) eqn:Hx.
    + destruct IH as (a & b & Hab & Hb & Hd).
      exists (x :: a), b. split; [simpl; by rewrite Hab |].
      split; [done | exact Hd].
    + exists [], (x :: z ++ [c]). by repeat split.
Qed.

Lemma LPAREN_not_space : isWhiteSpace LPAREN = false.
Proof. reflexivity. Qed.

Section FirstPercentage.
Variables line pre ds rest : jsstring.
Hypothesis Hfirst : firstPercentage line pre ds rest.

Let tail : jsstring := percentage ds ++ rest.
Let q : jsstring := trimEnd pre.
Let w : jsstring := rev (takeWhile isWhiteSpace (rev pre)).
Let g : jsstring := lastLine q.
Let h : jsstring := rev (dropWhile isDot (rev q)).

Lemma pre_split : pre = q ++ w.
Proof. apply rev_split. Qed.

Lemma q_split : q = h ++ g.
Proof. apply rev_split. Qed.

Lemma line_split : line = h ++ g ++ w ++ tail.
Proof.
  destruct Hfirst as (-> & _). rewrite pre_split at 1.
  rewrite q_split at 1. by rewrite <- !app_assoc.
Qed.

Lemma w_spaces : forallb isWhiteSpace w = true.
Proof. unfold w. rewrite forallb_rev. apply forallb_takeWhile. Qed.

Lemma g_dots : forallb isDot g = true.
Proof. unfold g, lastLine. rewrite forallb_rev. apply forallb_takeWhile. Qed.

(** No parenthesised percentage is found from a position inside [q]. *)
Lemma none_inside_q (u z : jsstring) :
  q = u ++ z -> z <> [] -> percentAt (trimStart (z ++ w ++ tail)) = None.
Proof.
  intros Hq Hz.
  destruct (rev_dropWhile_last isWhiteSpace pre) as [Hnil | (l & c & Hl & Hc)].
  { fold (trimStart (rev pre)) in Hnil. fold (trimEnd pre) in Hnil.
    fold q in Hnil. rewrite Hnil in Hq. by destruct u, z. }
  fold (trimStart (rev pre)) in Hl. fold (trimEnd pre) in Hl. fold q in Hl.
  destruct (suffix_last q u z l c Hq Hz Hl) as (z' & ->).
  destruct (dropWhile_suffix isWhiteSpace z' c (w ++ tail) Hc)
    as (a & b & Hab & Hb & Hdrop).
  unfold trimStart. rewrite Hdrop.
  destruct (percentAt (b ++ w ++ tail)) as [[ds' rest'] |] eqn:Hat; [| done].
  exfalso. apply percentAt_Some in Hat as (Heq & Hne' & Hds').
  destruct Hfirst as (Hline & _ & _ & Hmin).
  specialize (Hmin (u ++ a) ds' rest').
  assert (line = (u ++ a) ++ percentage ds' ++ rest') as Hline'.
  { rewrite Hline. rewrite pre_split at 1. rewrite Hq, Hab.
    rewrite <- !app_assoc. do 2 f_equal. by rewrite <- Heq. }
  specialize (Hmin Hline' Hne' Hds').
  assert (length pre = length u + length a + length b + length w) as Hlen.
  { rewrite pre_split at 1. rewrite Hq, Hab. rewrite !length_app. lia. }
  rewrite length_app in Hmin. destruct b; [done |]. simpl in Hlen. lia.
Qed.

(** The continuation of the first group, for a search started at [s0]. *)
Let K (s0 s1 : jsstring) : option (jsstring * captures) :=
  match percentAt (trimStart s1) with
  | Some (ds', rest') => Some (rest', [(2, ds'); (1, consumed s0 s1)])
  | None => None
  end.

Lemma K_none_inside_q s0 u z :
  q = u ++ z -> z <> [] -> K s0 (z ++ w ++ tail) = None.
Proof.
  intros Hq Hz. unfold K. by rewrite (none_inside_q u z Hq Hz).
Qed.

Lemma K_at_w s0 :
  K s0 (w ++ tail) = Some (rest, [(2, ds); (1, consumed s0 (w ++ tail))]).
Proof.
  unfold K, trimStart. rewrite dropWhile_app;
    [| apply w_spaces | apply LPAREN_not_space].
  destruct Hfirst as (_ & Hne & Hds & _).
  unfold tail. by rewrite percentAt_percentage.
Qed.

(** The match starts where the last line of [q] starts, and its first
    group is that last line. *)
Lemma rubric_match_found :
  String_match line RUBRIC_LINE
  = Some {| index := length h;
            whole := consumed (g ++ w ++ tail) rest;
            groups := [(2, ds); (1, g)] |}.
Proof.
  unfold String_match. rewrite line_split.
  rewrite (execFrom_first RUBRIC_LINE 0 h (g ++ w ++ tail) rest
             [(2, ds); (1, g)]); [done | |].
  - (* no match starts inside [h] *)
    intros u v Hh Hv. cbn [ignoreCase RUBRIC_LINE]. rewrite rubric_at.
    apply quantLazy_none. intros u2 v2 Hsplit Hu2.
    fold (K (v ++ g ++ w ++ tail) v2).
    destruct (rev_dropWhile_last isDot q) as [Hnil | (l & c & Hl & Hc)].
    { fold h in Hnil. rewrite Hnil in Hh. by destruct u, v. }
    fold h in Hl.
    destruct (suffix_last h u v l c Hh Hv Hl) as (v' & ->).
    (* [u2] has no line terminator, so it ends before [c] *)
    assert (exists x, v' ++ [c] = u2 ++ x /\ x <> []
                      /\ v2 = x ++ g ++ w ++ tail) as (x & Hx & Hxne & ->).
    { rewrite <- app_assoc in Hsplit. simpl in Hsplit.
      apply app_eq_app in Hsplit as (k' & [(Hk1 & Hk2) | (Hk1 & Hk2)]).
      - exists (k' ++ [c]). subst v' v2. rewrite <- !app_assoc.
        repeat split. by destruct k'.
      - destruct k' as [| y k'].
        + exists [c]. rewrite app_nil_r in Hk1. simpl in Hk2.
          subst u2 v2. by repeat split.
        + exfalso. simpl in Hk2. injection Hk2 as <- _. subst u2.
          rewrite forallb_app in Hu2. simpl in Hu2. rewrite Hc in Hu2.
          by rewrite andb_false_r in Hu2. }
    rewrite (app_assoc x g (w ++ tail)).
    apply (K_none_inside_q _ (u ++ u2) (x ++ g)).
    + rewrite q_split, Hh, Hx. by rewrite <- !app_assoc.
    + by destruct x.
  - (* the match at the start of [g] *)
    cbn [ignoreCase RUBRIC_LINE]. rewrite rubric_at.
    fold (K (g ++ w ++ tail)).
    rewrite (quantLazy_first isDot g (w ++ tail) _
               (rest, [(2, ds); (1, g)])).
    + done.
    + apply g_dots.
    + intros u v Hg Hv. apply (K_none_inside_q _ (h ++ u) v); [| done].
      rewrite q_split, Hg. by rewrite <- app_assoc.
    + pose proof (K_at_w (g ++ w ++ tail)) as HK. unfold K in HK.
      cbv beta. rewrite consumed_app in *. exact HK.
Qed.
End FirstPercentage.

Lemma rubric_match_none (line : jsstring) :
  noPercentage line -> String_match line RUBRIC_LINE = None.
Proof.
  intros Hnone. unfold String_match. apply execFrom_none.
  intros u v ->. cbn [ignoreCase RUBRIC_LINE]. rewrite rubric_at.
  apply quantLazy_none. intros u2 v2 -> _.
  destruct (percentAt (trimStart v2)) as [[ds rest] |] eqn:Hat; [| done].
  exfalso. apply percentAt_Some in Hat as (Heq & Hne & Hds).
  apply (Hnone (u ++ u2 ++ takeWhile isWhiteSpace v2) ds rest); [| done..].
  rewrite <- !app_assoc. do 2 f_equal. rewrite <- Heq.
  unfold trimStart. by rewrite takeWhile_dropWhile.
Qed.

Lemma digit_not_space c : isDigit c = true -> isWhiteSpace c = false.
Proof.
  unfold isDigit, isWhiteSpace, isLineTerminator.
  intros [H1%N.leb_le H2%N.leb_le]%andb_true_iff.
  repeat match goal with
         | |- context [(c =? ?n)%N] =>
             let E := fresh in destruct (N.eqb_spec c n) as [E | E]; [lia |]
         end.
  destruct (N.leb_spec 8192 c); [lia | done].
Qed.

(** On a non-empty sequence of digits [parseInt] has nothing to skip: it
    gives the Number nearest to the integer the digits denote. *)
Lemma parseInt10_digits (ds : jsstring) :
  ds <> [] -> forallb isDigit ds = true ->
  parseInt10 ds = number_of_Z (decimalValue ds).
Proof.
  intros Hne Hds. unfold parseInt10.
  destruct ds as [| d ds]; [done |]. clear Hne.
  pose proof Hds as Hd. simpl in Hd. apply andb_true_iff in Hd as [Hd _].
  unfold trimStart. simpl dropWhile. rewrite (digit_not_space d Hd).
  assert ((d =? 45)%N = false /\ (d =? 43)%N = false) as [-> ->].
  { unfold isDigit in Hd. apply andb_true_iff in Hd as [H1%N.leb_le _].
    split; apply N.eqb_neq; lia. }
  unfold digitsPrefix.
  rewrite <- (app_nil_r (d :: ds)) at 1. rewrite takeWhile_app by done.
  reflexivity.
Qed.

Lemma split_nonempty (sep : char) (s : jsstring) : String_split sep s <> [].
Proof.
  destruct s as [| c s]; simpl; [done |].
  destruct (c =? sep)%N; [done |]. by destruct (String_split sep s).
Qed.

Lemma split_join (sep : char) (s : jsstring) :
  join sep (String_split sep s) = s
  /\ Forall (fun piece => ~ In sep piece) (String_split sep s).
Proof.
  induction s as [| c s [IHj IHf]]; simpl.
  - split; [done |]. repeat constructor. by intros [].
  - pose proof (split_nonempty sep s) as Hne.
    destruct (String_split sep s) as [| piece pieces]; [done |].
    destruct (N.eqb_spec c sep) as [-> | Hc].
    + split.
      * simpl in *. by rewrite IHj.
      * constructor; [by intros [] | done].
    + pose proof (Forall_inv IHf) as Hp.
      pose proof (Forall_inv_tail IHf) as Hps. split.
      * destruct pieces; simpl in *; by rewrite <- IHj.
      * constructor; [| done]. by intros [-> | Hin].
Qed.

Lemma dropWhile_all p (a b : jsstring) :
  forallb p a = true -> dropWhile p (a ++ b) = dropWhile p b.
Proof.
  induction a as [| c a IH]; simpl; [done |].
  intros [-> Ha]%andb_true_iff. by apply IH.
Qed.

Lemma dropWhile_inside p (a : jsstring) (c : char) (b : jsstring) :
  p c = false -> dropWhile p ((a ++ [c]) ++ b) = dropWhile p (a ++ [c]) ++ b.
Proof.
  intros Hc. induction a as [| x a IH]; simpl.
  - by rewrite Hc.
  - destruct (p x); [exact IH | done].
Qed.

Lemma trimEnd_spaces (x w : jsstring) :
  forallb isWhiteSpace w = true -> trimEnd (x ++ w) = trimEnd x.
Proof.
  intros Hw. unfold trimEnd, trimStart. rewrite rev_app_distr.
  rewrite dropWhile_all; [done |]. by rewrite forallb_rev.
Qed.

(** Trimming the end first changes nothing to [trim]. *)
Lemma trim_trimEnd (s : jsstring) : trim (trimEnd s) = trim s.
Proof.
  unfold trim.
  pose proof (rev_split isWhiteSpace s) as Hs.
  fold (trimStart (rev s)) in Hs. fold (trimEnd s) in Hs.
  set (w := rev (takeWhile isWhiteSpace (rev s))) in *.
  assert (forallb isWhiteSpace w = true) as Hw.
  { unfold w. rewrite forallb_rev. apply forallb_takeWhile. }
  destruct (rev_dropWhile_last isWhiteSpace s) as [Hnil | (l & c & Hl & Hc)];
    fold (trimStart (rev s)) in *; fold (trimEnd s) in *.
  - rewrite Hnil in *. simpl in Hs. rewrite Hs. unfold trimStart at 2.
    rewrite <- (app_nil_r w), dropWhile_all by done. done.
  - rewrite Hs at 2. rewrite Hl. unfold trimStart.
    rewrite dropWhile_inside by done. by rewrite trimEnd_spaces.
Qed.

Lemma lastLine_id (s : jsstring) : forallb isDot s = true -> lastLine s = s.
Proof.
  intros Hs. unfold lastLine.
  rewrite <- (app_nil_r (rev s)), takeWhile_app, rev_involutive; try done.
  by rewrite forallb_rev.
Qed.

(** Without a line terminator other than LF before the percentage, the
    name is the trimmed text before the percentage. *)
Lemma name_without_terminator (pre : jsstring) :
  forallb isDot pre = true -> trim (lastLine (trimEnd pre)) = trim pre.
Proof.
  intros Hpre. rewrite lastLine_id; [apply trim_trimEnd |].
  pose proof (rev_split isWhiteSpace pre) as Hs.
  fold (trimStart (rev pre)) in Hs. fold (trimEnd pre) in Hs.
  rewrite Hs, forallb_app in Hpre. by apply andb_true_iff in Hpre as [-> _].
Qed.

Lemma parseRubricLine_found (line pre ds rest : jsstring) :
  firstPercentage line pre ds rest ->
  parseRubricLine line
  = Some {| criterion_name := trim (lastLine (trimEnd pre));
            weight := number_of_Z (decimalValue ds) |}.
Proof.
  intros Hfirst. unfold parseRubricLine.
  rewrite (rubric_match_found line pre ds rest Hfirst).
  destruct Hfirst as (_ & Hne & Hds & _).
  unfold group. cbn [groups List.find Nat.eqb].
  by rewrite parseInt10_digits.
Qed.

Lemma parseRubricLine_none (line : jsstring) :
  noPercentage line -> parseRubricLine line = None.
Proof.
  intros Hnone. unfold parseRubricLine. by rewrite rubric_match_none.
Qed.

(** C1, as stated, fails on a line that has a line terminator other than
    LF before its percentage: [.] does not match CR, so on the line
    ["Part A\rContent (40%)"] the match cannot start before ["Content"],
    and the name is ["Content"], not ["Part A\rContent"]. *)
Lemma name_is_not_the_text_before_the_percentage :
  firstPercentage (lit "Part A" ++ [CR] ++ lit "Content (40%)")
    (lit "Part A" ++ [CR] ++ lit "Content ") (lit "40") []
  /\ parseRubric (lit "Part A" ++ [CR] ++ lit "Content (40%)")
     = [{| criterion_name := lit "Content"; weight := number_of_Z 40 |}]
  /\ parseRubric (lit "Part A" ++ [CR] ++ lit "Content (40%)")
     <> [{| criterion_name := trim (lit "Part A" ++ [CR] ++ lit "Content ");
            weight := number_of_Z 40 |}].
Proof.
  split; [| split; [vm_compute; reflexivity | vm_compute; congruence]].
  repeat split; try (vm_compute; congruence).
  intros pre' ds' rest' Hline _ _.
  vm_compute in Hline. unfold percentage, LPAREN in Hline.
  do 15 (destruct pre' as [| ? pre'];
         [discriminate Hline | injection Hline as _ Hline]).
  simpl. lia.
Qed.

(** C1, amended.  [parseRubric] splits the text at each LF and returns,
    in the order of the lines, one criterion for each line that contains
    a parenthesised percentage ["(" digits "%)"], the other lines being
    dropped.  With [pre] the text before the first parenthesised
    percentage of the line, the name is what follows the last line
    terminator (CR, LS, PS) of [pre] without its trailing white space,
    trimmed; it is [pre] trimmed when [pre] has no such terminator.  The
    weight is the Number of the decimal digits before ["%)"], which is the
    integer they denote as long as it is below 2^53.  Nothing is checked
    about the sum of the weights: two criteria of 70% are both returned. *)
Theorem parseRubric_criteria (rubricText : jsstring) :
  String_split LF rubricText <> []
  /\ join LF (String_split LF rubricText) = rubricText
  /\ Forall (fun line => ~ In LF line) (String_split LF rubricText)
  /\ parseRubric rubricText
     = omap parseRubricLine (String_split LF rubricText)
  /\ (forall line,
        noPercentage line
        \/ exists pre ds rest, firstPercentage line pre ds rest)
  /\ (forall line, noPercentage line -> parseRubricLine line = None)
  /\ (forall line pre ds rest,
        firstPercentage line pre ds rest ->
        parseRubricLine line
        = Some {| criterion_name := trim (lastLine (trimEnd pre));
                  weight := number_of_Z (decimalValue ds) |})
  /\ (forall pre, forallb isDot pre = true ->
                  trim (lastLine (trimEnd pre)) = trim pre)
  /\ (forall ds, forallb isDigit ds = true ->
                 (decimalValue ds < 2 ^ 53)%Z ->
                 integerValue (number_of_Z (decimalValue ds))
                 = Some (decimalValue ds))
  /\ parseRubric (lit "Content (70%)" ++ [LF] ++ lit "Style (70%)")
     = [{| criterion_name := lit "Content"; weight := number_of_Z 70 |};
        {| criterion_name := lit "Style"; weight := number_of_Z 70 |}].
Proof.
  split; [apply split_nonempty |].
  split; [apply split_join |]. split; [apply split_join |].
  split.
  { unfold parseRubric, nonNull.
    induction (String_split LF rubricText) as [| line lines IH]; simpl;
      [done |].
    destruct (parseRubricLine line); simpl; [f_equal |]; exact IH. }
  split; [exact percentage_or_none |].
  split; [exact parseRubricLine_none |].
  split; [exact parseRubricLine_found |].
  split; [exact name_without_terminator |].
  split.
  { intros ds Hds Hsmall. apply number_of_Z_exact.
    split; [by apply decimalValue_nonneg | done]. }
  vm_compute. reflexivity.
Qed.

(** The line ["Content (40%)"]: its first percentage, and its criterion. *)
Lemma parseRubric_criteria_witness :
  firstPercentage (lit "Content (40%)") (lit "Content ") (lit "40") []
  /\ parseRubricLine (lit "Content (40%)")
     = Some {| criterion_name := trim (lastLine (trimEnd (lit "Content ")));
               weight := number_of_Z (decimalValue (lit "40")) |}.
Proof.
  assert (firstPercentage (lit "Content (40%)") (lit "Content ") (lit "40") [])
    as Hfirst.
  { repeat split; try (vm_compute; congruence).
    intros pre' ds' rest' Hline _ _.
    vm_compute in Hline. unfold percentage, LPAREN in Hline.
    do 8 (destruct pre' as [| ? pre'];
          [discriminate Hline | injection Hline as _ Hline]).
    simpl. lia. }
  split; [exact Hfirst |].
  destruct (parseRubric_criteria []) as (_ & _ & _ & _ & _ & _ & Hfound & _).
  exact (Hfound _ _ _ _ Hfirst).
Defined.

(* --------------------------------------------------------------------- *)
(** ** The score in the reply                                             *)
(* --------------------------------------------------------------------- *)

Lemma space_not_digit c : isWhiteSpace c = true -> isDigit c = false.
Proof.
  intros Hc. destruct (isDigit c) eqn:Hd; [| done].
  by rewrite (digit_not_space c Hd) in Hc.
Qed.

(** The pattern at one position. *)
Lemma score_at (s : jsstring) :
  matcher true (source SCORE_LINE) s [] (fun s' cs' => Some (s', cs'))
  = match startsWith true (lit "SCORE:") s with
    | Some rest =>
        match takeWhile isDigit (trimStart rest) with
        | [] => None
        | ds => Some (dropWhile isDigit (trimStart rest), [(1, ds)])
        end
    | None => None
    end.
Proof.
  cbn [source SCORE_LINE]. cbn [matcher]. rewrite matcher_litSeq.
  destruct (startsWith true (lit "SCORE:") s) as [rest |]; [| done].
  cbn [matcher].
  rewrite quantGreedy_run.
  2: { intros c t Hc. apply quantGreedy_short. cbn [takeWhile].
       rewrite (space_not_digit c Hc). cbn [length]. lia. }
  cbn [Nat.leb]. fold (trimStart rest).
  destruct (takeWhile isDigit (trimStart rest)) as [| d ds] eqn:Hrun.
  - apply quantGreedy_short. rewrite Hrun. simpl. lia.
  - erewrite quantGreedy_whole; [reflexivity | rewrite Hrun; simpl; lia |].
    by rewrite consumed_dropWhile, Hrun.
Qed.

Lemma score_match_from (i : nat) (s : jsstring) :
  option_map (fun m => group m 1) (execFrom SCORE_LINE i s) = scoreDigits s.
Proof.
  revert i. induction s as [| c s IH]; intros i.
  - cbn [execFrom scoreDigits]. cbn [ignoreCase SCORE_LINE].
    rewrite score_at. unfold scoreAt.
    destruct (startsWith true (lit "SCORE:") []) as [rest |]; [| done].
    by destruct (takeWhile isDigit (trimStart rest)).
  - cbn [execFrom scoreDigits]. cbn [ignoreCase SCORE_LINE].
    rewrite score_at. unfold scoreAt.
    destruct (startsWith true (lit "SCORE:") (c :: s)) as [rest |];
      [| apply IH].
    destruct (takeWhile isDigit (trimStart rest)); [apply IH | done].
Qed.

(** What the pattern finds is the first score announced in the reply. *)
Lemma score_match (response : jsstring) :
  option_map (fun m => group m 1) (String_match response SCORE_LINE)
  = scoreDigits response.
Proof. apply score_match_from. Qed.

Lemma scoreAt_digits s ds :
  scoreAt s = Some ds -> ds <> [] /\ forallb isDigit ds = true.
Proof.
  unfold scoreAt. destruct (startsWith true (lit "SCORE:") s) as [rest |];
    [| done].
  pose proof (forallb_takeWhile isDigit (trimStart rest)) as Hrun.
  destruct (takeWhile isDigit (trimStart rest)); [done |].
  by intros [= <-].
Qed.

Lemma scoreDigits_digits s ds :
  scoreDigits s = Some ds -> ds <> [] /\ forallb isDigit ds = true.
Proof.
  induction s as [| c s IH]; cbn [scoreDigits].
  - destruct (scoreAt []) eqn:Hat; [| done].
    intros [= <-]. by apply (scoreAt_digits []).
  - destruct (scoreAt (c :: s)) eqn:Hat; [| exact IH].
    intros [= <-]. by apply (scoreAt_digits (c :: s)).
Qed.

(** C2.  [gradeCriterion] always returns.  When the call of the service
    throws, when the reply announces no score, when the announced score is
    NaN, negative or above [maxScore], it returns the score
    [Math.floor(maxScore * 0.7)] and a feedback that carries the message
    of the failure; otherwise it returns the announced score and the whole
    reply as feedback.  Only the first call of the service counts: there
    is no second attempt. *)
Theorem gradeCriterion_fallback (service : AIService) (answer : File)
    (criterionName : jsstring) (maxScore : number) (subject : jsstring) :
  let prompt := {| prompt_subject := subject;
                   prompt_criterion := criterionName;
                   prompt_maxScore := maxScore |} in
  let graded := gradeCriterion service answer criterionName maxScore subject in
  (forall service' : AIService,
      service' answer prompt 0 = service answer prompt 0 ->
      gradeCriterion service' answer criterionName maxScore subject = graded)
  /\ match service answer prompt 0 with
     | Rejected error => graded = fallback maxScore (messageText error)
     | Resolved response =>
         match scoreDigits response with
         | None =>
             graded = fallback maxScore
                        (lit "AI response did not contain a valid score")
         | Some ds =>
             let score := number_of_Z (decimalValue ds) in
             if isNaN score || num_lt score zero || num_gt score maxScore
             then graded = fallback maxScore
                             (lit "AI response contained an invalid score")
             else graded = {| graded_score := score;
                              graded_feedback := response |}
         end
     end.
Proof.
  cbv zeta. split.
  { intros service' Hsame. unfold gradeCriterion. by rewrite Hsame. }
  unfold gradeCriterion.
  destruct (service answer _ 0) as [response | error]; [| done].
  pose proof (score_match response) as Hm.
  destruct (String_match response SCORE_LINE) as [m |]; simpl in Hm;
    rewrite <- Hm; [| done].
  assert (parseInt10 (group m 1) = number_of_Z (decimalValue (group m 1)))
    as ->.
  { symmetry in Hm. apply scoreDigits_digits in Hm as [Hne Hds].
    by apply parseInt10_digits. }
  by destruct (isNaN _ || num_lt _ zero || num_gt _ maxScore).
Qed.

(* --------------------------------------------------------------------- *)
(** ** The lines and the weights of a rubric                              *)
(* --------------------------------------------------------------------- *)

Lemma String_split_app (sep : char) (a b : jsstring) :
  String_split sep (a ++ sep :: b) = String_split sep a ++ String_split sep b.
Proof.
  induction a as [| c a IH]; cbn [app String_split].
  - by rewrite N.eqb_refl.
  - destruct (c =? sep)%N; [by rewrite IH |].
    rewrite IH. pose proof (split_nonempty sep a) as Hne.
    by destruct (String_split sep a).
Qed.

(** X1.  The criteria of a rubric are those of its lines, each taken on its
    own: the empty text has none, and the criteria of two texts joined by
    a newline are the criteria of the first followed by those of the
    second. *)
Theorem parseRubric_lines (a b : jsstring) :
  parseRubric [] = []
  /\ parseRubric (a ++ LF :: b) = parseRubric a ++ parseRubric b.
Proof.
  split; [reflexivity |].
  unfold parseRubric, nonNull.
  by rewrite String_split_app, map_app, omap_app.
Qed.

Lemma trimStart_idem (s : jsstring) : trimStart (trimStart s) = trimStart s.
Proof. apply dropWhile_id, dropWhile_stops. Qed.

Lemma trim_idem (s : jsstring) : trim (trim s) = trim s.
Proof.
  unfold trim at 2. rewrite trim_trimEnd. unfold trim.
  by rewrite trimStart_idem.
Qed.

(** Rounding a non-negative integer never gives NaN nor a negative Number. *)
Lemma shr_1_nonneg mrs : (0 <= shr_m mrs)%Z -> (0 <= shr_m (shr_1 mrs))%Z.
Proof.
  destruct mrs as [m r s]. cbn [shr_m]. intros Hm.
  destruct m as [| p | p]; [done | | lia].
  destruct p; simpl; lia.
Qed.

Lemma iter_shr_1_nonneg (p : positive) mrs :
  (0 <= shr_m mrs)%Z -> (0 <= shr_m (SpecFloat.iter_pos shr_1 p mrs))%Z.
Proof.
  revert mrs. induction p as [p IH | p IH |]; intros mrs Hm; cbn [SpecFloat.iter_pos].
  - by apply IH, IH, shr_1_nonneg.
  - by apply IH, IH.
  - by apply shr_1_nonneg.
Qed.

Lemma shr_fexp_nonneg prec emax m e l :
  (0 <= m)%Z -> (0 <= shr_m (fst (shr_fexp prec emax m e l)))%Z.
Proof.
  intros Hm. unfold shr_fexp, shr.
  assert (0 <= shr_m (shr_record_of_loc m l))%Z as H0.
  { unfold shr_record_of_loc. by destruct l as [| []]. }
  destruct (fexp prec emax (Zdigits2 m + e) - e)%Z; cbn [fst]; [done | | done].
  by apply iter_shr_1_nonneg.
Qed.

Lemma round_nearest_even_nonneg m l :
  (0 <= m)%Z -> (0 <= round_nearest_even m l)%Z.
Proof.
  intros Hm. unfold round_nearest_even.
  destruct l as [| []]; try lia. destruct (Z.even m); lia.
Qed.

Lemma binary_round_aux_sign sx mx ex lx :
  (0 <= mx)%Z ->
  match binary_round_aux prec64 emax64 sx mx ex lx with
  | S754_zero s | S754_finite s _ _ | S754_infinity s => s = sx
  | S754_nan => False
  end.
Proof.
  intros Hm. unfold binary_round_aux.
  pose proof (shr_fexp_nonneg prec64 emax64 mx ex lx Hm) as H1.
  destruct (shr_fexp prec64 emax64 mx ex lx) as [mrs' e']. cbn [fst] in H1.
  pose proof (shr_fexp_nonneg prec64 emax64
                (round_nearest_even (shr_m mrs') (loc_of_shr_record mrs')) e' loc_Exact
                (round_nearest_even_nonneg _ _ H1)) as H2.
  destruct (shr_fexp prec64 emax64 _ e' loc_Exact) as [mrs'' e''].
  cbn [fst] in H2.
  destruct (shr_m mrs'') as [| p | p]; [done | | lia].
  by destruct (e'' <=? emax64 - prec64)%Z.
Qed.

Lemma number_of_Z_nonNegative (z : Z) :
  (0 <= z)%Z -> nonNegative (number_of_Z z) = true.
Proof.
  intros Hz. destruct z as [| m | m]; [done | | lia].
  unfold number_of_Z, binary_normalize, binary_round.
  destruct (shl_align m 0 _) as [mz ez].
  pose proof (binary_round_aux_sign false (Zpos mz) ez loc_Exact) as H.
  destruct (binary_round_aux _ _ _ _ _ _); cbn [nonNegative];
    try (by rewrite H); exfalso; by apply H.
Qed.

Lemma nonNegative_checks (x : number) :
  nonNegative x = true -> isNaN x = false /\ num_lt x zero = false.
Proof. by destruct x as [[] | [] | | [] m e]. Qed.

Lemma parseRubricLine_wellformed (line : jsstring) (c : Criterion) :
  parseRubricLine line = Some c ->
  nonNegative (weight c) = true /\ trim (criterion_name c) = criterion_name c.
Proof.
  destruct (percentage_or_none line) as [Hnone | (pre & ds & rest & Hfirst)].
  - by rewrite (parseRubricLine_none line Hnone).
  - rewrite (parseRubricLine_found line pre ds rest Hfirst).
    destruct Hfirst as (_ & _ & Hds & _). intros [= <-]. cbn [weight criterion_name].
    split; [| apply trim_idem].
    by apply number_of_Z_nonNegative, decimalValue_nonneg.
Qed.

Lemma parseRubric_each (P : Criterion -> Prop) (rubricText : jsstring) :
  (forall line c, parseRubricLine line = Some c -> P c) ->
  Forall P (parseRubric rubricText).
Proof.
  intros HP. unfold parseRubric, nonNull.
  induction (String_split LF rubricText) as [| line lines IH]; [constructor |].
  cbn [List.map]. rewrite omap_step.
  destruct (parseRubricLine line) as [c |] eqn:Hline; cbn [Datatypes.id]; [| exact IH].
  constructor; [by apply (HP line) | exact IH].
Qed.

(** X2.  Every criterion [parseRubric] returns has a weight that is neither
    NaN nor negative (it is zero, a positive Number or, beyond the range
    of binary64, +infinity) and a name without white space at either end;
    and there is at most one criterion per line of the text. *)
Theorem parseRubric_wellformed (rubricText : jsstring) :
  Forall (fun c => nonNegative (weight c) = true
                   /\ isNaN (weight c) = false
                   /\ trim (criterion_name c) = criterion_name c)
         (parseRubric rubricText)
  /\ length (parseRubric rubricText) <= length (String_split LF rubricText).
Proof.
  split.
  - apply parseRubric_each. intros line c [Hw Hn]%parseRubricLine_wellformed.
    split; [done |]. split; [| done]. by apply nonNegative_checks.
  - unfold parseRubric, nonNull.
    induction (String_split LF rubricText) as [| line lines IH]; [done |].
    cbn [List.map]. rewrite omap_step.
    destruct (parseRubricLine line); cbn [Datatypes.id length]; lia.
Qed.

(* --------------------------------------------------------------------- *)
(** ** The score of a criterion                                           *)
(* --------------------------------------------------------------------- *)

(** The outcome of [gradeCriterion], case by case. *)
Lemma gradeCriterion_run (service : AIService) (answer : File)
    (criterionName : jsstring) (maxScore : number) (subject : jsstring) :
  gradeCriterion service answer criterionName maxScore subject
  = match service answer {| prompt_subject := subject;
                            prompt_criterion := criterionName;
                            prompt_maxScore := maxScore |} 0 with
    | Rejected error => fallback maxScore (messageText error)
    | Resolved response =>
        match scoreDigits response with
        | None => fallback maxScore (lit "AI response did not contain a valid score")
        | Some ds =>
            if num_gt (number_of_Z (decimalValue ds)) maxScore
            then fallback maxScore (lit "AI response contained an invalid score")
            else {| graded_score := number_of_Z (decimalValue ds);
                    graded_feedback := response |}
        end
    end.
Proof.
  unfold gradeCriterion.
  destruct (service answer _ 0) as [response | error]; [| done].
  pose proof (score_match response) as Hm.
  destruct (String_match response SCORE_LINE) as [m |]; simpl in Hm;
    rewrite <- Hm; [| done].
  symmetry in Hm. apply scoreDigits_digits in Hm as [Hne Hds].
  rewrite parseInt10_digits by done.
  destruct (nonNegative_checks (number_of_Z (decimalValue (group m 1)))) as [-> ->].
  { by apply number_of_Z_nonNegative, decimalValue_nonneg. }
  cbn [orb]. by destruct (num_gt _ maxScore).
Qed.

Lemma gradeCriterion_within (service : AIService) (answer : File)
    (criterionName : jsstring) (maxScore : number) (subject : jsstring) :
  fallbackOrWithin
    (graded_score (gradeCriterion service answer criterionName maxScore subject))
    maxScore.
Proof.
  rewrite gradeCriterion_run. unfold fallbackOrWithin.
  destruct (service answer _ 0) as [response | error]; [| by left].
  destruct (scoreDigits response) as [ds |] eqn:Hds; [| by left].
  destruct (num_gt _ maxScore) eqn:Hgt; [by left | right].
  split; [| done]. apply scoreDigits_digits in Hds as [_ Hds].
  by apply number_of_Z_nonNegative, decimalValue_nonneg.
Qed.

(** X3.  When the service replies and the reply announces a score, the
    score read is never NaN nor negative, so that of the three tests of
    [isNaN(score) || score < 0 || score > maxScore] only the last can
    hold: [gradeCriterion] keeps the announced score and the whole reply
    unless the score exceeds [maxScore], and falls back otherwise. *)
Theorem gradeCriterion_score_guard (service : AIService) (answer : File)
    (criterionName : jsstring) (maxScore : number) (subject response ds : jsstring) :
  service answer {| prompt_subject := subject;
                    prompt_criterion := criterionName;
                    prompt_maxScore := maxScore |} 0 = Resolved response ->
  scoreDigits response = Some ds ->
  let score := number_of_Z (decimalValue ds) in
  nonNegative score = true
  /\ gradeCriterion service answer criterionName maxScore subject
     = if num_gt score maxScore
       then fallback maxScore (lit "AI response contained an invalid score")
       else {| graded_score := score; graded_feedback := response |}.
Proof.
  intros Hreply Hds score.
  pose proof (scoreDigits_digits _ _ Hds) as [Hne Hdigits].
  assert (nonNegative score = true) as Hscore
    by apply number_of_Z_nonNegative, decimalValue_nonneg, Hdigits.
  split; [done |].
  unfold gradeCriterion. rewrite Hreply.
  pose proof (score_match response) as Hm. rewrite Hds in Hm.
  destruct (String_match response SCORE_LINE) as [m |]; [| done].
  injection Hm as Hm. rewrite Hm, parseInt10_digits by done.
  fold score. destruct (nonNegative_checks score Hscore) as [-> ->].
  cbn [orb]. by destruct (num_gt score maxScore).
Qed.

(** A reply that announces 12 for a criterion of 10 points. *)
Lemma gradeCriterion_score_guard_witness :
  let service : AIService := fun _ _ _ => Resolved (lit "Score: 12 of 10") in
  nonNegative (number_of_Z 12) = true
  /\ gradeCriterion service essay (lit "Content") (number_of_Z 10) []
     = fallback (number_of_Z 10) (lit "AI response contained an invalid score").
Proof.
  exact (gradeCriterion_score_guard (fun _ _ _ => Resolved (lit "Score: 12 of 10"))
           essay (lit "Content") (number_of_Z 10) [] (lit "Score: 12 of 10")
           (lit "12") eq_refl eq_refl).
Defined.

(** X4.  In the results of [processStudentAnswers], the [maxScore] of every
    criterion is neither NaN nor negative, and its score is either the
    fallback [Math.floor(maxScore * 0.7)] or a Number that is neither NaN
    nor negative and does not exceed [maxScore]. *)
Theorem scores_within_bounds (env : Env) (studentFiles : list File)
    (rubricText : jsstring) :
  Forall (fun r =>
    Forall (fun c => nonNegative (cr_maxScore c) = true
                     /\ fallbackOrWithin (cr_score c) (cr_maxScore c))
           (criteria r))
    (processStudentAnswers env studentFiles rubricText).
Proof.
  rewrite processStudentAnswers_imap. apply Forall_imap. intros i file _.
  cbn [gradeFile criteria].
  apply Forall_imap. intros j criterion Hj.
  cbn [cr_score cr_maxScore]. split; [| apply gradeCriterion_within].
  assert (Forall (fun c => nonNegative (weight c) = true) (parseRubric rubricText))
    as Hweights.
  { apply parseRubric_each. intros line c Hc.
    by apply parseRubricLine_wellformed in Hc as [-> _]. }
  rewrite Forall_lookup in Hweights. exact (Hweights j criterion Hj).
Qed.

(** X5.  The feedback of every result is decided by its total alone.  On a
    whole percentage it is "Excellent work overall!" from 80,
    "Good work with room for improvement." from 60,
    "Needs significant improvement." from 40 and
    "Requires extensive revision." below; the total NaN of an empty rubric
    fails the three comparisons and gets "Requires extensive revision.". *)
Theorem overallFeedback_thresholds (env : Env) (studentFiles : list File)
    (rubricText : jsstring) :
  Forall (fun r => feedback r = overallFeedbackOf (score r))
         (processStudentAnswers env studentFiles rubricText)
  /\ (forall n : Z, (0 <= n <= 100)%Z ->
        overallFeedbackOf (number_of_Z n) = feedbackOfPercent n)
  /\ overallFeedbackOf NaN = lit "Requires extensive revision.".
Proof.
  split; [| split; [| reflexivity]].
  - rewrite processStudentAnswers_imap. by apply Forall_imap.
  - intros n Hn.
    assert (forallb (fun k => bool_decide
                      (overallFeedbackOf (number_of_Z (Z.of_nat k))
                       = feedbackOfPercent (Z.of_nat k))) (seq 0 101) = true)
      as Hall by (vm_compute; reflexivity).
    rewrite forallb_forall in Hall.
    specialize (Hall (Z.to_nat n)). rewrite Z2Nat.id in Hall by lia.
    assert (In (Z.to_nat n) (seq 0 101)) as Hin by (apply in_seq; lia).
    apply Hall in Hin. by apply bool_decide_eq_true in Hin.
Qed.

(** X6.  The files are graded independently of one another: the results for
    a list of files followed by another are the results for the first
    list followed by the results for the second, the environment of the
    second being the one its files meet at their positions. *)
Theorem processStudentAnswers_app (env : Env) (files1 files2 : list File)
    (rubricText : jsstring) :
  processStudentAnswers env (files1 ++ files2) rubricText
  = processStudentAnswers env files1 rubricText
    ++ processStudentAnswers (shift (length files1) env) files2 rubricText.
Proof.
  rewrite !processStudentAnswers_imap, imap_app. f_equal.
Qed.

(* --------------------------------------------------------------------- *)
(** ** The client of the AI service                                       *)
(* --------------------------------------------------------------------- *)

Lemma split_head (sep : char) (s : jsstring) :
  exists pieces,
    String_split sep s = takeWhile (fun c => negb (c =? sep)%N) s :: pieces.
Proof.
  induction s as [| c s [pieces IH]]; cbn [String_split takeWhile].
  - by exists [].
  - destruct (c =? sep)%N; cbn [negb]; [by eexists |].
    rewrite IH. by eexists.
Qed.

Lemma split_none (sep : char) (s : jsstring) :
  forallb (fun c => negb (c =? sep)%N) s = true -> String_split sep s = [s].
Proof.
  induction s as [| c s IH]; cbn [String_split forallb]; [done |].
  intros [Hc Hs]%andb_true_iff. apply negb_true_iff in Hc.
  by rewrite Hc, IH.
Qed.

(** X7.  [base64File.split(',')[1]]: on a text without comma it is
    undefined (and the request carries no [data]); on a header without
    comma followed by a comma and a payload it is the payload up to its
    first comma, hence the whole payload when that has no comma, as is
    the case of base64. *)
Theorem payloadOf_dataURL (header payload : jsstring) :
  forallb notComma header = true ->
  payloadOf header = None
  /\ payloadOf (header ++ COMMA :: payload) = Some (takeWhile notComma payload)
  /\ (forallb notComma payload = true ->
      payloadOf (header ++ COMMA :: payload) = Some payload).
Proof.
  intros Hheader. unfold payloadOf.
  assert (payloadOf (header ++ COMMA :: payload) = Some (takeWhile notComma payload))
    as Hpayload.
  { unfold payloadOf. rewrite String_split_app, (split_none COMMA header Hheader).
    destruct (split_head COMMA payload) as [pieces ->]. reflexivity. }
  split; [by rewrite (split_none COMMA header Hheader) |].
  split; [exact Hpayload |].
  intros Hp. unfold payloadOf in Hpayload. rewrite Hpayload. f_equal.
  clear Hpayload. induction payload as [| c s IH]; cbn [takeWhile]; [done |].
  cbn [forallb] in Hp. apply andb_true_iff in Hp as [-> Hs]. by rewrite IH.
Qed.

(** The data URL of a PNG image. *)
Lemma payloadOf_dataURL_witness :
  payloadOf (lit "data:image/png;base64") = None
  /\ payloadOf (lit "data:image/png;base64" ++ COMMA :: lit "iVBORw0KGgo=")
     = Some (takeWhile notComma (lit "iVBORw0KGgo="))
  /\ (forallb notComma (lit "iVBORw0KGgo=") = true ->
      payloadOf (lit "data:image/png;base64" ++ COMMA :: lit "iVBORw0KGgo=")
      = Some (lit "iVBORw0KGgo=")).
Proof.
  apply (payloadOf_dataURL (lit "data:image/png;base64") (lit "iVBORw0KGgo=")).
  reflexivity.
Defined.

Section ClientLemmas.
Context `{Engine} (platform : Platform).

(** Reading the text of the reply changes no state. *)
Lemma candidateText_world {W} (data : jsval) (w : W) :
  fst (candidateText data w) = w.
Proof. by destruct data. Qed.

Lemma candidateText_snd {W W'} (data : jsval) (w : W) (w' : W') :
  snd (candidateText data w) = snd (candidateText data w').
Proof. by destruct data. Qed.

(** X9.  [callAIAPIWithFile] makes at most three calls, in this order: it
    reads the file, sends one request to the fixed endpoint with the key
    in the query string, and reads the body of the reply once.  When the
    key is missing it makes no call at all and throws the Error
    "AI API key missing"; when the file cannot be read, the read of the
    file is its only call and it throws the event of the reader; when the
    request fails, it has made these two calls and throws the error of
    [fetch]; when the request is answered, it has made exactly the three
    calls, whatever the reply.  There is never a second request. *)
Theorem callAIAPIWithFile_calls (file : File) (prompt : jsstring) (w : Net) :
  let after := callAIAPIWithFile platform file prompt w in
  if unset (NEXT_PUBLIC_AI_API_KEY platform)
  then after = (w, Rejected (ErrorObject PlainError keyMissing))
  else
    match fileReader platform file with
    | None =>
        after
        = ({| netCalls := netCalls w ++ [ReadAsDataURL file] |},
           Rejected EventObject)
    | Some base64File =>
        let request := geminiRequest platform file prompt base64File in
        match fetch platform request with
        | Rejected error =>
            after
            = ({| netCalls := netCalls w ++ [ReadAsDataURL file; Fetch request] |},
               Rejected error)
        | Resolved response =>
            netCalls (fst after)
            = netCalls w ++ [ReadAsDataURL file; Fetch request; ResponseJson]
        end
    end.
Proof.
  cbv zeta. unfold callAIAPIWithFile.
  destruct (unset (NEXT_PUBLIC_AI_API_KEY platform)); [done |].
  unfold fileToBase64, await_fetch, await_json, tryCatchFinally, bind, netCall,
    lift, ret, throw.
  destruct (fileReader platform file) as [base64File |] eqn:Hread; [| done].
  fold (geminiRequest platform file prompt base64File).
  destruct (fetch platform _) as [response | error]; cbn [fst snd netCalls].
  2: { by rewrite <- app_assoc. }
  destruct (res_ok response); cbn [negb].
  - destruct (res_json response) as [data | error]; cbn [fst snd netCalls];
      [| by rewrite <- !app_assoc].
    pose proof (candidateText_world data
      {| netCalls := ((netCalls w ++ [ReadAsDataURL file])
                      ++ [Fetch (geminiRequest platform file prompt base64File)])
                     ++ [ResponseJson] |}) as Hw.
    destruct (candidateText data _) as [w' [text | error]];
      cbn [fst snd] in *; subst w'.
    + destruct text as [value |]; [destruct (falsy (Some value)) |];
        cbn [fst snd netCalls]; by rewrite <- !app_assoc.
    + cbn [netCalls]. by rewrite <- !app_assoc.
  - destruct (res_json response) as [data | error]; cbn [fst snd netCalls];
      by rewrite <- !app_assoc.
Qed.

(** X10.  [callAIAPIWithFile] returns a value exactly when the key is set,
    the file is read, the request is answered by a reply that is [ok],
    the body of the reply is JSON, and what is found in it at
    [candidates[0].content.parts[0].text] is that value and is truthy (an
    empty text is refused like a missing one). *)
Theorem callAIAPIWithFile_returns (file : File) (prompt : jsstring) (w : Net)
    (value : jsval) :
  snd (callAIAPIWithFile platform file prompt w) = Resolved value
  <-> unset (NEXT_PUBLIC_AI_API_KEY platform) = false
      /\ exists base64File response data,
           fileReader platform file = Some base64File
           /\ fetch platform (geminiRequest platform file prompt base64File)
              = Resolved response
           /\ res_ok response = true
           /\ res_json response = Resolved data
           /\ snd (candidateText data noCalls) = Resolved (Some value)
           /\ falsy (Some value) = false.
Proof.
  unfold callAIAPIWithFile.
  destruct (unset (NEXT_PUBLIC_AI_API_KEY platform));
    [split; [done | by intros [? _]] |].
  unfold fileToBase64, bind, netCall, tryCatchFinally, await_fetch, await_json,
    lift, ret, throw.
  destruct (fileReader platform file) as [base64File |] eqn:Hread; cbn.
  2: { split; [done | by intros (_ & ? & ? & ? & ? & _)]. }
  fold (geminiRequest platform file prompt base64File).
  destruct (fetch platform _) as [response | error] eqn:Hfetch; cbn.
  2: { split; [done |].
       intros (_ & b & r & d & Hb & Hf & _). simplify_eq; congruence. }
  destruct (res_ok response) eqn:Hok; cbn.
  2: { split; [by destruct (res_json response) |].
       intros (_ & b & r & d & Hb & Hf & Ho & _). simplify_eq; congruence. }
  destruct (res_json response) as [data | error] eqn:Hjson; cbn.
  2: { split; [done |].
       intros (_ & b & r & d & Hb & Hf & Ho & Hj & _). simplify_eq; congruence. }
  match goal with
  | |- context [candidateText data ?w1] =>
      pose proof (candidateText_snd data w1 noCalls) as Hsnd;
      destruct (candidateText data w1) as [w' [text | error]]
  end; cbn in Hsnd |- *.
  2: { split; [done |].
       intros (_ & b & r & d & Hb & Hf & Ho & Hj & Ht & _). simplify_eq.
       congruence. }
  split.
  - intros Hvalue. split; [done |].
    exists base64File, response, data.
    destruct text as [value' |]; [| done].
    destruct (falsy (Some value')) eqn:Hfalsy; [done |].
    cbn in Hvalue. injection Hvalue as ->. by rewrite <- Hsnd.
  - intros (_ & b & r & d & Hb & Hf & Ho & Hj & Ht & Hy). simplify_eq.
    assert (text = Some value) as -> by congruence.
    unfold falsy in *. by rewrite Hy.
Qed.

(** X11.  On a reply that is not [ok], [callAIAPIWithFile] reads the body of
    the reply and throws the Error "AI API request failed: ", the status
    text, " - " and the body printed again; when the body is not JSON, what
    it throws is the error of [response.json()] instead, and the status
    text is lost. *)
Theorem callAIAPIWithFile_not_ok (file : File) (prompt base64File : jsstring)
    (response : Response) (w : Net) :
  unset (NEXT_PUBLIC_AI_API_KEY platform) = false ->
  fileReader platform file = Some base64File ->
  fetch platform (geminiRequest platform file prompt base64File)
  = Resolved response ->
  res_ok response = false ->
  callAIAPIWithFile platform file prompt w
  = ({| netCalls :=
          netCalls w
          ++ [ReadAsDataURL file;
              Fetch (geminiRequest platform file prompt base64File);
              ResponseJson] |},
     match res_json response with
     | Resolved errorData =>
         Rejected (ErrorObject PlainError
                     (lit "AI API request failed: " ++ res_statusText response
                      ++ lit " - " ++ JSON_stringify errorData))
     | Rejected error => Rejected error
     end).
Proof.
  intros Hkey Hread Hfetch Hok. unfold callAIAPIWithFile. rewrite Hkey.
  unfold fileToBase64, bind, netCall, tryCatchFinally, await_fetch, await_json,
    lift, ret, throw.
  rewrite Hread. fold (geminiRequest platform file prompt base64File).
  rewrite Hfetch. cbn. rewrite Hok. cbn.
  destruct (res_json response); cbn; by rewrite <- !app_assoc.
Qed.

End ClientLemmas.

(** A reply 502 whose body is an HTML page. *)
Lemma callAIAPIWithFile_not_ok_witness :
  let notJSON := ErrorObject SyntaxError (lit "Unexpected token < in JSON") in
  let platform :=
    {| NEXT_PUBLIC_AI_API_KEY := Some (lit "k3y");
       NEXT_PUBLIC_AI_API_URL := None;
       fileReader := fun _ => Some (lit "data:image/png;base64,iVBORw0KGgo=");
       fetch := fun _ =>
         Resolved {| res_ok := false; res_statusText := lit "Bad Gateway";
                     res_json := Rejected notJSON |} |} in
  callAIAPIWithFile (H := miniEngine) platform essay (lit "Grade it.") noCalls
  = ({| netCalls :=
          netCalls noCalls
          ++ [ReadAsDataURL essay;
              Fetch (geminiRequest (H := miniEngine) platform essay (lit "Grade it.")
                       (lit "data:image/png;base64,iVBORw0KGgo="));
              ResponseJson] |},
     Rejected notJSON).
Proof.
  intros notJSON platform.
  exact (callAIAPIWithFile_not_ok (H := miniEngine) platform essay (lit "Grade it.")
           (lit "data:image/png;base64,iVBORw0KGgo=")
           {| res_ok := false; res_statusText := lit "Bad Gateway";
              res_json := Rejected notJSON |} noCalls
           eq_refl eq_refl eq_refl eq_refl).
Defined.

(** X8.  [callAIAPI] sends no request unless both environment variables are
    set (it throws the configuration Error); otherwise it sends exactly
    one request, to the configured URL with the key in the query string.
    It does not read the body of a reply that is not [ok], and throws the
    Error that carries the status text; on a reply that is [ok] it reads
    the body once and returns exactly when the text found at
    [candidates[0].content.parts[0].text] is truthy. *)
Theorem callAIAPI_calls `{Engine} (platform : Platform) (prompt : jsstring)
    (w : Net) :
  let request := textRequestOf platform prompt in
  let after := callAIAPI platform prompt w in
  if unset (NEXT_PUBLIC_AI_API_KEY platform)
     || unset (NEXT_PUBLIC_AI_API_URL platform)
  then after = (w, Rejected (ErrorObject PlainError configMissing))
  else
    match fetch platform request with
    | Rejected error =>
        after = ({| netCalls := netCalls w ++ [Fetch request] |}, Rejected error)
    | Resolved response =>
        if res_ok response
        then netCalls (fst after) = netCalls w ++ [Fetch request; ResponseJson]
             /\ forall value,
                  snd after = Resolved value
                  <-> exists data,
                        res_json response = Resolved data
                        /\ snd (candidateText data noCalls) = Resolved (Some value)
                        /\ falsy (Some value) = false
        else after
             = ({| netCalls := netCalls w ++ [Fetch request] |},
                Rejected (ErrorObject PlainError
                            (lit "AI API request failed: "
                             ++ res_statusText response)))
    end.
Proof.
  cbv zeta. unfold callAIAPI.
  destruct (unset (NEXT_PUBLIC_AI_API_KEY platform)
            || unset (NEXT_PUBLIC_AI_API_URL platform)); [done |].
  fold (textRequestOf platform prompt).
  unfold await_fetch, await_json, bind, netCall, lift, ret, throw.
  destruct (fetch platform _) as [response | error]; [| done].
  destruct (res_ok response); [| reflexivity]. cbn [negb].
  destruct (res_json response) as [data | error]; cbn [fst snd netCalls].
  2: { split; [by rewrite <- app_assoc |].
       intros value. split; [done | by intros (? & ? & _)]. }
  match goal with
  | |- context [candidateText data ?w1] =>
      pose proof (candidateText_snd data w1 noCalls) as Hsnd;
      pose proof (candidateText_world data w1) as Hfst;
      destruct (candidateText data w1) as [w' [text | error]]
  end; cbn [fst snd netCalls] in Hsnd, Hfst |- *; subst w'; cbn [netCalls].
  2: { split; [by rewrite <- app_assoc |].
       intros value. split; [done |].
       intros (d & [= <-] & Ht & _). congruence. }
  split.
  { destruct text as [value |]; [destruct (falsy (Some value)) |];
      cbn [fst netCalls]; by rewrite <- app_assoc. }
  intros value. split.
  - intros Hvalue. exists data. split; [done |].
    destruct text as [value' |]; [| done].
    destruct (falsy (Some value')) eqn:Hfalsy; [done |].
    cbn in Hvalue. injection Hvalue as ->. by rewrite <- Hsnd.
  - intros (d & [= <-] & Ht & Hy).
    assert (text = Some value) as -> by congruence.
    unfold falsy in *. by rewrite Hy.
Qed.

(** X12.  Without an API key, [callAIAPIWithFile] throws before it makes any
    call, and every criterion of every file graded by
    [processStudentAnswers] gets the fallback score
    [Math.floor(maxScore * 0.7)] and the feedback that carries
    "AI API key missing". *)
Theorem no_key_all_fallback `{Engine} (platform : nat -> nat -> Platform)
    (render : Prompt -> jsstring) (clock : nat -> Z) (random : nat -> jsstring)
    (studentFiles : list File) (rubricText : jsstring) :
  (forall i j, unset (NEXT_PUBLIC_AI_API_KEY (platform i j)) = true) ->
  (forall i j file prompt w,
     callAIAPIWithFile (platform i j) file prompt w
     = (w, Rejected (ErrorObject PlainError keyMissing)))
  /\ Forall (fun r =>
       Forall (fun c =>
                 cr_score c = Math_floor (num_mul (cr_maxScore c) lit_0_7)
                 /\ cr_feedback c
                    = lit "Unable to perform AI grading: " ++ keyMissing
                      ++ lit ". Please review manually.")
              (criteria r))
       (processStudentAnswers (envOf platform render clock random)
          studentFiles rubricText).
Proof.
  intros Hkey.
  assert (forall i j file prompt w,
            callAIAPIWithFile (platform i j) file prompt w
            = (w, Rejected (ErrorObject PlainError keyMissing))) as Hcall.
  { intros i j file prompt w. unfold callAIAPIWithFile. by rewrite Hkey. }
  split; [done |].
  rewrite processStudentAnswers_imap. apply Forall_imap. intros i file _.
  cbn [gradeFile criteria]. apply Forall_imap. intros j criterion _.
  cbn [cr_score cr_maxScore cr_feedback].
  unfold gradeCriterion, envOf, serviceOf. cbn [api]. by rewrite Hcall.
Qed.

(** A platform whose key is the empty string. *)
Lemma no_key_all_fallback_witness :
  let platform : nat -> nat -> Platform := fun _ _ =>
    {| NEXT_PUBLIC_AI_API_KEY := Some [];
       NEXT_PUBLIC_AI_API_URL := None;
       fileReader := fun _ => None;
       fetch := fun _ => Rejected EventObject |} in
  Forall (fun r =>
    Forall (fun c =>
              cr_score c = Math_floor (num_mul (cr_maxScore c) lit_0_7)
              /\ cr_feedback c
                 = lit "Unable to perform AI grading: " ++ keyMissing
                   ++ lit ". Please review manually.")
           (criteria r))
    (processStudentAnswers
       (envOf (H := miniEngine) platform (fun _ => []) (fun _ => 0%Z) (fun _ => []))
       [essay] (lit "Content (40%)")).
Proof.
  intros platform.
  apply (no_key_all_fallback (H := miniEngine) platform).
  intros i j. reflexivity.
Defined.

(* --------------------------------------------------------------------- *)
(** ** The OCR worker                                                     *)
(* --------------------------------------------------------------------- *)

(** Once there is a worker, an image costs one call of [recognize]. *)
Lemma processImages_with_worker (tesseract : Tesseract)
    (answer : list OCRCall -> OCRCall -> jsstring) (images : list File) (w : OCR) :
  (forall done c, tesseract done c = Resolved (answer done c)) ->
  worker w <> None ->
  processImages tesseract images w
  = ({| worker := worker w;
        ocrCalls := ocrCalls w ++ List.map Recognize images |},
     Resolved (recognized answer (ocrCalls w) images)).
Proof.
  intros Hok. revert w. induction images as [| image rest IH]; intros w Hw.
  - cbn. rewrite app_nil_r. by destruct w.
  - cbn [processImages recognized]. unfold bind at 1. unfold processImage, bind at 1.
    destruct (worker w) as [k |] eqn:Hk; [| done]. cbn [isNull].
    unfold ret at 1, tesseractCall. rewrite Hok, Hk.
    unfold bind at 1.
    rewrite (IH {| worker := Some k; ocrCalls := ocrCalls w ++ [Recognize image] |})
      by done.
    unfold ret. cbn [worker ocrCalls List.map]. by rewrite <- app_assoc.
Qed.

(** X13.  When every call on the library succeeds, processing one image
    after the other from the state in which the module is loaded creates
    the worker once, loads and initialises the language once, and then
    makes one call of [recognize] per image, in the order of the images;
    the texts returned are those of these calls. *)
Theorem processImages_one_worker (tesseract : Tesseract)
    (answer : list OCRCall -> OCRCall -> jsstring) (image : File)
    (images : list File) :
  (forall done c, tesseract done c = Resolved (answer done c)) ->
  let setup := [CreateWorker; LoadLanguage ENG; Initialize ENG] in
  processImages tesseract (image :: images) idle
  = ({| worker := Some 0;
        ocrCalls := setup ++ List.map Recognize (image :: images) |},
     Resolved (recognized answer setup (image :: images))).
Proof.
  intros Hok setup. cbn [processImages]. unfold bind at 1.
  unfold processImage, bind at 1. cbn [worker idle isNull].
  unfold initializeOCR. cbn [worker idle isNull].
  unfold bind, createWorker, setWorker, tesseractCall, ret.
  cbv beta iota. cbn [ocrCalls worker idle]. rewrite !Hok.
  cbv beta iota. cbn [ocrCalls worker app length]. rewrite ?Hok.
  change (lit "eng") with ENG.
  rewrite (processImages_with_worker tesseract answer images
             {| worker := Some 0;
                ocrCalls := [CreateWorker; LoadLanguage ENG; Initialize ENG;
                             Recognize image] |} Hok) by done.
  reflexivity.
Qed.

(** Two images. *)
Lemma processImages_one_worker_witness :
  processImages (fun _ _ => Resolved (lit "x = 4")) [essay; essay] idle
  = ({| worker := Some 0;
        ocrCalls := [CreateWorker; LoadLanguage ENG; Initialize ENG]
                    ++ List.map Recognize [essay; essay] |},
     Resolved (recognized (fun _ _ => lit "x = 4")
                 [CreateWorker; LoadLanguage ENG; Initialize ENG] [essay; essay])).
Proof.
  apply (processImages_one_worker (fun _ _ => Resolved (lit "x = 4"))
           (fun _ _ => lit "x = 4") essay [essay]).
  intros done c. reflexivity.
Defined.

(** X14.  When [loadLanguage] fails in [initializeOCR], the worker has
    already been stored: [initializeOCR] throws, a second call of it
    returns without calling the library, and [processImage] then calls
    [recognize] on a worker whose language has not been loaded. *)
Theorem loadLanguage_failure (tesseract : Tesseract) (created : jsstring)
    (error : thrown) (w : OCR) :
  worker w = None ->
  tesseract (ocrCalls w) CreateWorker = Resolved created ->
  tesseract (ocrCalls w ++ [CreateWorker]) (LoadLanguage ENG) = Rejected error ->
  let w1 := {| worker := Some (length (ocrCalls w));
               ocrCalls := ocrCalls w ++ [CreateWorker; LoadLanguage ENG] |} in
  initializeOCR tesseract w = (w1, Rejected error)
  /\ initializeOCR tesseract w1 = (w1, Resolved tt)
  /\ forall image,
       processImage tesseract image w1
       = ({| worker := worker w1; ocrCalls := ocrCalls w1 ++ [Recognize image] |},
          tesseract (ocrCalls w1) (Recognize image)).
Proof.
  intros Hw Hcreate Hload w1. split; [| by split].
  unfold initializeOCR. rewrite Hw. cbn [isNull].
  unfold bind, createWorker, setWorker, tesseractCall, ret.
  rewrite Hcreate. cbn [ocrCalls worker]. change (lit "eng") with ENG.
  rewrite Hload. unfold w1. by rewrite <- app_assoc.
Qed.

(** A library whose [loadLanguage] always fails. *)
Lemma loadLanguage_failure_witness :
  let tesseract : Tesseract := fun _ c =>
    match c with
    | LoadLanguage _ => Rejected EventObject
    | _ => Resolved []
    end in
  let w1 := {| worker := Some 0; ocrCalls := [CreateWorker; LoadLanguage ENG] |} in
  initializeOCR tesseract idle = (w1, Rejected EventObject)
  /\ initializeOCR tesseract w1 = (w1, Resolved tt)
  /\ forall image,
       processImage tesseract image w1
       = ({| worker := worker w1; ocrCalls := ocrCalls w1 ++ [Recognize image] |},
          tesseract (ocrCalls w1) (Recognize image)).
Proof.
  intros tesseract.
  exact (loadLanguage_failure tesseract [] EventObject idle
           eq_refl eq_refl eq_refl).
Defined.

(* --------------------------------------------------------------------- *)
(** ** The form and its buttons                                           *)
(* --------------------------------------------------------------------- *)

(** [handleSubmit] changes nothing of the form but [isSubmitting]. *)
Lemma handleSubmit_form (clock : Z) (p : Page) :
  let p' := fst (handleSubmit clock p) in
  subject p' = subject p /\ studentFiles p' = studentFiles p
  /\ rubricFile p' = rubricFile p /\ useTemplateRubric p' = useTemplateRubric p.
Proof.
  unfold handleSubmit. unfold toast.
  unfold bind, tryCatchFinally, call, setIsSubmitting.
  cbn [calls fst snd isSubmitting subject studentFiles rubricFile
       useTemplateRubric].
  destruct (noSubject (subject p)); [done |].
  destruct (length (studentFiles p) =? 0)%nat; [done |].
  by destruct (isNull (rubricFile p) && negb (useTemplateRubric p)).
Qed.

Lemma handler_oneRubricSource (e : PageEvent) (p : Page) :
  oneRubricSource p = true -> oneRubricSource (fst (handlerOf e p)) = true.
Proof.
  unfold oneRubricSource. intros Hp.
  destruct e as [value | files | files | value | clock]; cbn [handlerOf].
  - done.
  - done.
  - by destruct files.
  - unfold handleUseTemplateChange, bind, setUseTemplateRubric, setRubricFile, ret.
    destruct (bool_decide (value = lit "template")); cbn; [done |].
    apply orb_true_r.
  - destruct (handleSubmit_form clock p) as (_ & _ & -> & ->). exact Hp.
Qed.

(** X15.  Whatever the user does on the form (choosing a subject, changing
    the student files, changing the rubric file, switching between upload
    and template, submitting), an uploaded rubric and the template rubric
    are never selected together. *)
Theorem rubric_sources_exclusive (events : list PageEvent) :
  let p := pageAfter events initialPage in
  rubricFile p = None \/ useTemplateRubric p = false.
Proof.
  cbv zeta.
  assert (oneRubricSource (pageAfter events initialPage) = true) as Hinv.
  { unfold pageAfter. generalize initialPage (eq_refl : oneRubricSource initialPage = true).
    induction events as [| e events IH]; intros p Hp; [done |].
    cbn [fold_left]. by apply IH, handler_oneRubricSource. }
  unfold oneRubricSource in Hinv. apply orb_true_iff in Hinv as [Hn | Hu].
  - left. by destruct (rubricFile _).
  - right. by apply negb_true_iff.
Qed.

(** X16.  When the submit button of the card footer is enabled, a submission
    passes the three validations: [handleSubmit] sets [isSubmitting],
    waits, shows "Grading started", pushes the results route and clears
    [isSubmitting], and changes nothing else of the form. *)
Theorem footer_button_starts_grading (clock : Z) (p : Page) :
  footerSubmitDisabled p = false ->
  handleSubmit clock p
  = ({| subject := subject p; studentFiles := studentFiles p;
        rubricFile := rubricFile p; useTemplateRubric := useTemplateRubric p;
        isSubmitting := false;
        calls := calls p
                 ++ [PreventDefault; SetIsSubmitting true; Sleep 2000;
                     ShowToast gradingStarted;
                     RouterPush (lit "/grading/results/session-" ++ decimal clock);
                     SetIsSubmitting false] |},
     Resolved tt).
Proof.
  unfold footerSubmitDisabled. intros Hd.
  apply orb_false_iff in Hd as [Hd Hr]. apply orb_false_iff in Hd as [Hd Hf].
  apply orb_false_iff in Hd as [_ Hs].
  unfold handleSubmit. unfold toast.
  unfold bind, tryCatchFinally, call, setIsSubmitting.
  cbn [calls fst snd isSubmitting subject studentFiles rubricFile
       useTemplateRubric].
  rewrite Hs, Hf, Hr. cbn [calls fst snd isSubmitting subject studentFiles
    rubricFile useTemplateRubric]. by rewrite <- !app_assoc.
Qed.

(** A form with a subject, one file and the template rubric. *)
Lemma footer_button_starts_grading_witness :
  let p := {| subject := Some (lit "math"); studentFiles := [essay];
              rubricFile := None; useTemplateRubric := true;
              isSubmitting := false; calls := [] |} in
  handleSubmit 1700000000000 p
  = ({| subject := subject p; studentFiles := studentFiles p;
        rubricFile := rubricFile p; useTemplateRubric := useTemplateRubric p;
        isSubmitting := false;
        calls := calls p
                 ++ [PreventDefault; SetIsSubmitting true; Sleep 2000;
                     ShowToast gradingStarted;
                     RouterPush (lit "/grading/results/session-"
                                 ++ decimal 1700000000000);
                     SetIsSubmitting false] |},
     Resolved tt).
Proof.
  intros p. apply (footer_button_starts_grading 1700000000000 p). reflexivity.
Defined.

(** X17.  The submit button of the rubric tab is enabled as soon as a rubric
    is chosen: when the subject or the files are missing (the button
    [Continue to Rubric Selection] is disabled), a submission from it is
    answered by the toast "Subject required" or "Student files required"
    and nothing else happens. *)
Theorem rubric_button_reaches_validation (clock : Z) (p : Page) :
  rubricSubmitDisabled p = false ->
  continueDisabled p = true ->
  exists t,
    calls (fst (handleSubmit clock p)) = calls p ++ [PreventDefault; ShowToast t]
    /\ (t = subjectRequired \/ t = filesRequired)
    /\ isSubmitting (fst (handleSubmit clock p)) = false.
Proof.
  unfold rubricSubmitDisabled, continueDisabled. intros Hd Hc.
  apply orb_false_iff in Hd as [Hi Hr].
  unfold handleSubmit. unfold toast.
  unfold bind, tryCatchFinally, call, setIsSubmitting.
  cbn [calls fst snd isSubmitting subject studentFiles rubricFile
       useTemplateRubric].
  destruct (noSubject (subject p)); cbn [calls fst snd isSubmitting].
  { eexists. split; [by rewrite <- app_assoc |]. split; [by left | done]. }
  cbn [orb] in Hc. rewrite Hc. cbn [calls fst snd isSubmitting].
  eexists. split; [by rewrite <- app_assoc |]. split; [by right | done].
Qed.

(** A form with a rubric file only. *)
Lemma rubric_button_reaches_validation_witness :
  let p := {| subject := None; studentFiles := [];
              rubricFile := Some essay; useTemplateRubric := false;
              isSubmitting := false; calls := [] |} in
  exists t,
    calls (fst (handleSubmit 0 p)) = calls p ++ [PreventDefault; ShowToast t]
    /\ (t = subjectRequired \/ t = filesRequired)
    /\ isSubmitting (fst (handleSubmit 0 p)) = false.
Proof.
  intros p. apply (rubric_button_reaches_validation 0 p); reflexivity.
Defined.

(* --------------------------------------------------------------------- *)
(** ** The stored users                                                   *)
(* --------------------------------------------------------------------- *)


(** X18.  When nothing is stored under "fairgrade_users" (or the empty
    text), [register] does not call [JSON.parse], and the two writes alone
    decide its outcome.  When the browser accepts both, it returns: it has
    stored the array of the one new user, made the new user without its
    password the current user and stored it under "current_user".  When
    the browser refuses the first write, it throws the error of that write
    and has stored nothing.  When the browser refuses the second, it
    throws the error of that write after it has stored the users and set
    the current user. *)
Theorem first_registration `{Engine}
    (random name email password : jsstring) (a : Auth) :
  unset (localStorage a !! lit "fairgrade_users") = true ->
  let users := usersText random name email password [] in
  let current := currentText random name email in
  let result := register random name email password a in
  let stored := <[lit "fairgrade_users" := users]> (localStorage a) in
  (quotaExceeded (localStorage a) (lit "fairgrade_users") users = None ->
   quotaExceeded stored (lit "current_user") current = None ->
   result = (registered random name email password [] a, Resolved tt))
  /\ (forall error,
        quotaExceeded (localStorage a) (lit "fairgrade_users") users = Some error ->
        result = (usersRefused random name email password [] a, Rejected error))
  /\ (forall error,
        quotaExceeded (localStorage a) (lit "fairgrade_users") users = None ->
        quotaExceeded stored (lit "current_user") current = Some error ->
        result = (currentRefused random name email password [] a, Rejected error)).
Proof.
  intros Hnone users current result stored.
  assert (result = registerWrites random name email password [] a) as ->.
  { unfold result. rewrite register_run.
    unfold getStoredUsers, bind, localStorage_getItem, lift, ret.
    change USERS_STORAGE_KEY with (lit "fairgrade_users").
    by destruct (localStorage a !! lit "fairgrade_users") as [[| c t] |]. }
  unfold registerWrites. fold users current.
  change USERS_STORAGE_KEY with (lit "fairgrade_users").
  change CURRENT_USER_KEY with (lit "current_user"). fold stored.
  repeat split.
  - by intros -> ->.
  - by intros error ->.
  - by intros error -> ->.
Qed.

(** The registration of Al on an empty storage that accepts every write. *)
Lemma first_registration_witness :
  register (H := miniEngine) (lit "0.4fzyo82mvyr") (lit "Al")
    (lit "al@example.org") (lit "hunter2") freshAuth
  = (registered (H := miniEngine) (lit "0.4fzyo82mvyr") (lit "Al")
       (lit "al@example.org") (lit "hunter2") [] freshAuth, Resolved tt).
Proof.
  exact (proj1 (first_registration (H := miniEngine) (lit "0.4fzyo82mvyr")
                  (lit "Al") (lit "al@example.org") (lit "hunter2") freshAuth
                  eq_refl)
           eq_refl eq_refl).
Defined.

(** X19.  [register] leaves [loading] false whether it returns or throws.
    When it throws, one of three things has happened.  It has thrown
    before it wrote (the stored text is not JSON, is not an array, has a
    null entry before the email is found, or the email is taken): its only
    call on [localStorage] is the read of "fairgrade_users", and the
    storage and the current user are what they were.  Or the browser has
    refused the write of the users: nothing is stored, and the current
    user is what it was.  Or the browser has refused the write of
    "current_user": the users, the new one with its password among them,
    are stored and the current user is set, though [register] throws.
    When the browser accepts every write, only the first can happen. *)
Theorem register_failure_modes `{Engine}
    (random name email password : jsstring) (a : Auth) :
  let after := register random name email password a in
  loading (fst after) = false
  /\ (forall error,
        snd after = Rejected error ->
        fst after = refused a
        \/ (exists items,
              snd (getStoredUsers a) = Resolved (JArr items)
              /\ quotaExceeded (localStorage a) (lit "fairgrade_users")
                   (usersText random name email password items) = Some error
              /\ fst after = usersRefused random name email password items a)
        \/ (exists items,
              snd (getStoredUsers a) = Resolved (JArr items)
              /\ quotaExceeded
                   (<[lit "fairgrade_users" :=
                        usersText random name email password items]>
                      (localStorage a))
                   (lit "current_user") (currentText random name email)
                 = Some error
              /\ fst after = currentRefused random name email password items a))
  /\ (acceptsEveryWrite ->
      forall error,
        snd after = Rejected error ->
        localStorage (fst after) = localStorage a
        /\ user (fst after) = user a
        /\ storageCalls (fst after)
           = storageCalls a ++ [GetItem (lit "fairgrade_users")]).
Proof.
  cbv zeta. rewrite register_run.
  destruct (snd (getStoredUsers a)) as [users | error0];
    [| by repeat split; auto].
  destruct users as [| | | | items |]; try (by repeat split; auto).
  destruct (taken email items) as [[] | error0]; try (by repeat split; auto).
  unfold registerWrites.
  change USERS_STORAGE_KEY with (lit "fairgrade_users").
  change CURRENT_USER_KEY with (lit "current_user").
  destruct (quotaExceeded (localStorage a) _ _) as [error1 |] eqn:Hfirst.
  { split; [done |]. split.
    - intros error [= <-]. right; left. by exists items.
    - intros Hall. by rewrite Hall in Hfirst. }
  destruct (quotaExceeded (<[_ := _]> (localStorage a)) _ _) as [error2 |]
    eqn:Hsecond.
  { split; [done |]. split.
    - intros error [= <-]. right; right. by exists items.
    - intros Hall. by rewrite Hall in Hsecond. }
  by repeat split.
Qed.

(** In a browser that refuses the write of "current_user", the
    registration of Al throws; yet Al is stored with his password and is
    the current user, and "current_user" is not stored. *)
Example register_partial_write :
  let after := register (H := fullStorageEngine) (lit "0.4fzyo82mvyr") (lit "Al")
                 (lit "al@example.org") (lit "hunter2") freshAuth in
  snd after = Rejected quotaError
  /\ localStorage (fst after) !! lit "fairgrade_users"
     = Some (mini_stringify
               (JArr [newUserOf (lit "0.4fzyo82mvyr") (lit "Al")
                        (lit "al@example.org") (lit "hunter2")]))
  /\ localStorage (fst after) !! lit "current_user" = None
  /\ user (fst after)
     = userDataOf (lit "0.4fzyo82mvyr") (lit "Al") (lit "al@example.org")
  /\ loading (fst after) = false.
Proof. cbv zeta. repeat split; vm_compute; reflexivity. Qed.

(** X20.  [register] keeps the emails of the users distinct: when the
    emails of the users it reads are pairwise distinct and it returns, so
    are the emails of the users it stores. *)
Theorem register_keeps_emails_distinct `{Engine}
    (random name email password : jsstring) (a a' : Auth) (items : list jsval) :
  snd (getStoredUsers a) = Resolved (JArr items) ->
  NoDup (omap emailOf items) ->
  register random name email password a = (a', Resolved tt) ->
  let users := items ++ [newUserOf random name email password] in
  localStorage a' !! lit "fairgrade_users" = Some (JSON_stringify (JArr users))
  /\ NoDup (omap emailOf users).
Proof.
  intros Hread Hdistinct. rewrite register_run, Hread.
  destruct (taken email items) as [[] | error] eqn:Htaken; try done.
  unfold registerWrites.
  destruct (quotaExceeded (localStorage a) _ _); [done |].
  destruct (quotaExceeded (<[_ := _]> (localStorage a)) _ _); [done |].
  intros [= <-]. cbv zeta. split.
  - unfold registered. cbn [localStorage].
    rewrite lookup_insert_ne by (by vm_compute). apply lookup_insert_eq.
  - rewrite omap_app. apply List.NoDup_app; [done | |].
    + cbn. repeat constructor. by intros [].
    + intros e He [<- | []]. by apply (taken_false _ _ Htaken).
Qed.

(** Bo registers after Al. *)
Lemma register_keeps_emails_distinct_witness :
  let al := newUserOf (lit "0.4fzyo82mvyr") (lit "Al") (lit "al@example.org")
              (lit "hunter2") in
  let users := [al] ++ [newUserOf (lit "0.8k2jd01xq") (lit "Bo")
                          (lit "bo@example.org") (lit "pw")] in
  localStorage
    (fst (register (H := miniEngine) (lit "0.8k2jd01xq") (lit "Bo")
            (lit "bo@example.org") (lit "pw") authWithAl))
    !! lit "fairgrade_users"
  = Some (mini_stringify (JArr users))
  /\ NoDup (omap emailOf users).
Proof.
  intros al.
  apply (register_keeps_emails_distinct (H := miniEngine) (lit "0.8k2jd01xq")
           (lit "Bo") (lit "bo@example.org") (lit "pw") authWithAl _ [al]).
  - vm_compute. reflexivity.
  - vm_compute. repeat constructor. by intros [].
  - vm_compute. reflexivity.
Defined.

(** X21.  After a registration that has returned, and provided the engine
    reads back the array it has printed, a second registration under the
    same email throws "Email already registered", whatever the name and
    the password, and writes nothing. *)
Theorem register_twice `{Engine}
    (random name email password random' name' password' : jsstring)
    (a a' : Auth) (items : list jsval) :
  let users := JArr (items ++ [newUserOf random name email password]) in
  snd (getStoredUsers a) = Resolved (JArr items) ->
  register random name email password a = (a', Resolved tt) ->
  JSON_stringify users <> [] ->
  JSON_parse (JSON_stringify users) = Resolved users ->
  register random' name' email password' a'
  = (refused a', Rejected alreadyRegistered).
Proof.
  intros users Hread. rewrite register_run, Hread.
  destruct (taken email items) as [[] | error] eqn:Htaken; try done.
  unfold registerWrites.
  destruct (quotaExceeded (localStorage a) _ _); [done |].
  destruct (quotaExceeded (<[_ := _]> (localStorage a)) _ _); [done |].
  intros [= <-] Hne Hparse. rewrite register_run.
  assert (snd (getStoredUsers (registered random name email password items a))
          = Resolved users) as ->.
  { unfold getStoredUsers, bind, localStorage_getItem, lift, ret, registered.
    cbn [localStorage user storageCalls loading].
    rewrite lookup_insert_ne by (by vm_compute). rewrite lookup_insert_eq.
    unfold usersText. fold users.
    destruct (JSON_stringify users) as [| c t]; [done |].
    by rewrite Hparse. }
  unfold users. rewrite (taken_app _ _ _ Htaken). cbn [taken newUserOf].
  rewrite bool_decide_eq_true_2; [done |].
  unfold emailOf. by vm_compute.
Qed.

(** A second registration under the email of Al. *)
Lemma register_twice_witness :
  register (H := miniEngine) (lit "0.8k2jd01xq") (lit "Alfred")
    (lit "al@example.org") (lit "other") authWithAl
  = (refused authWithAl, Rejected alreadyRegistered).
Proof.
  apply (register_twice (H := miniEngine) (lit "0.4fzyo82mvyr") (lit "Al")
           (lit "al@example.org") (lit "hunter2") (lit "0.8k2jd01xq")
           (lit "Alfred") (lit "other") freshAuth authWithAl []).
  - vm_compute. reflexivity.
  - vm_compute. reflexivity.
  - vm_compute. discriminate.
  - vm_compute. reflexivity.
Defined.

(** X22.  A registration survives a reload of the page: provided the engine
    reads back the user it has printed, the effect run when the provider
    mounts again, on the storage the registration has left, returns and
    makes the registered user (without password) the current user. *)
Theorem register_then_reload `{Engine}
    (random name email password : jsstring) (a a' : Auth) :
  register random name email password a = (a', Resolved tt) ->
  JSON_stringify (userDataOf random name email) <> [] ->
  JSON_parse (JSON_stringify (userDataOf random name email))
  = Resolved (userDataOf random name email) ->
  let mounted := AuthProvider_useEffect (reload a') in
  snd mounted = Resolved tt
  /\ user (fst mounted) = user a'
  /\ user (fst mounted) = userDataOf random name email
  /\ loading (fst mounted) = false
  /\ localStorage (fst mounted) = localStorage a'.
Proof.
  rewrite register_run.
  destruct (snd (getStoredUsers a)) as [users | error]; [| done].
  destruct users as [| | | | items |]; try done.
  destruct (taken email items) as [[] | error]; try done.
  unfold registerWrites.
  destruct (quotaExceeded (localStorage a) _ _); [done |].
  destruct (quotaExceeded (<[_ := _]> (localStorage a)) _ _); [done |].
  intros [= <-] Hne Hparse. cbv zeta.
  rewrite (useEffect_run _ (Some (JSON_stringify (userDataOf random name email))))
    by apply lookup_insert_eq.
  destruct (JSON_stringify (userDataOf random name email)) as [| c t] eqn:Htext;
    [done |].
  by rewrite Hparse.
Qed.

(** Al reloads the page after he has registered. *)
Lemma register_then_reload_witness :
  let mounted := AuthProvider_useEffect (H := miniEngine) (reload authWithAl) in
  snd mounted = Resolved tt
  /\ user (fst mounted) = user authWithAl
  /\ user (fst mounted)
     = userDataOf (lit "0.4fzyo82mvyr") (lit "Al") (lit "al@example.org")
  /\ loading (fst mounted) = false
  /\ localStorage (fst mounted) = localStorage authWithAl.
Proof.
  apply (register_then_reload (H := miniEngine) (lit "0.4fzyo82mvyr") (lit "Al")
           (lit "al@example.org") (lit "hunter2") freshAuth authWithAl).
  - vm_compute. reflexivity.
  - vm_compute. discriminate.
  - vm_compute. reflexivity.
Defined.

(** X23.  [login] is forgotten by a reload of the page: the provider that
    mounts after a login finds exactly what it would have found without
    the login, and when nothing is stored under "current_user" the current
    user is null again. *)
Theorem login_not_persisted `{Engine} (email password : jsstring) (a : Auth) :
  let mounted := AuthProvider_useEffect (reload (fst (login email password a))) in
  mounted = AuthProvider_useEffect (reload a)
  /\ (unset (localStorage a !! lit "current_user") = true ->
      user (fst mounted) = JNull /\ snd mounted = Resolved tt).
Proof.
  cbv zeta. split; [reflexivity |].
  intros Hnone.
  change (AuthProvider_useEffect (reload (fst (login email password a))))
    with (AuthProvider_useEffect (reload a)).
  rewrite (useEffect_run _ (localStorage a !! lit "current_user")) by done.
  by destruct (localStorage a !! lit "current_user") as [[| c t] |].
Qed.

(** X24.  [logout] returns, sets the current user to null, removes
    "current_user" from the storage and leaves the registered users as
    they were; the provider that mounts after it has no current user and
    is not loading. *)
Theorem logout_then_reload `{Engine} (a : Auth) :
  let out := fst (logout a) in
  let mounted := AuthProvider_useEffect (reload out) in
  snd (logout a) = Resolved tt
  /\ user out = JNull
  /\ localStorage out = delete (lit "current_user") (localStorage a)
  /\ localStorage out !! lit "fairgrade_users"
     = localStorage a !! lit "fairgrade_users"
  /\ snd mounted = Resolved tt
  /\ user (fst mounted) = JNull
  /\ loading (fst mounted) = false.
Proof.
  cbv zeta. rewrite (useEffect_run _ None) by apply lookup_delete_eq.
  repeat split. apply lookup_delete_ne. by vm_compute.
Qed.

(** X25.  When the text stored under "current_user" is not JSON, the effect
    run when the provider mounts throws the error of [JSON.parse] after
    its read of the storage: the current user is not set and [loading] is
    not cleared. *)
Theorem mount_on_unreadable_user `{Engine} (a : Auth) (text : jsstring)
    (error : thrown) :
  localStorage a !! lit "current_user" = Some text ->
  text <> [] ->
  JSON_parse text = Rejected error ->
  AuthProvider_useEffect a
  = ({| user := user a; loading := loading a; localStorage := localStorage a;
        storageCalls := storageCalls a ++ [GetItem (lit "current_user")] |},
     Rejected error).
Proof.
  intros Hstored Hne Hparse. rewrite (useEffect_run a (Some text) Hstored).
  destruct text as [| c t]; [done |]. by rewrite Hparse.
Qed.

(** A truncated text under "current_user". *)
Lemma mount_on_unreadable_user_witness :
  let a := {| user := JNull; loading := true;
              localStorage := {[ lit "current_user" := lit "{oops" ]};
              storageCalls := [] |} in
  AuthProvider_useEffect (H := miniEngine) a
  = ({| user := JNull; loading := true; localStorage := localStorage a;
        storageCalls := [] ++ [GetItem (lit "current_user")] |},
     Rejected (ErrorObject SyntaxError (lit "Unexpected token in JSON"))).
Proof.
  intros a.
  apply (mount_on_unreadable_user (H := miniEngine) a (lit "{oops")).
  - vm_compute. reflexivity.
  - vm_compute. discriminate.
  - vm_compute. reflexivity.
Defined.

